(** * MAAC training driver (main.py): replay scheduling, checkpoints, run numbering

    A shallow embedding of [run] and [make_parallel_env] from [main.py].
    The driver is a script over external collaborators (the vectorised
    environment, the learner, the replay buffer, the metrics writer and
    the file system).  Calls to collaborators are recorded as events of a
    trace; the values they return are supplied by an oracle
    ([Collaborators]).  Python integers are [Z]; exceptions are explicit
    results. *)

From Stdlib Require Import ZArith Lia List Ascii String Decimal DecimalString
  DecimalPos DecimalN QArith.
From stdpp Require Import base list strings.

Local Open Scope string_scope.
Local Open Scope list_scope.
Local Open Scope Z_scope.

(** ** Python primitives used by the driver *)

Module Py.

(** The exceptions the driver itself can raise. *)
Inductive exn : Type :=
| ValueError
| ZeroDivisionError
| IndexError.

Inductive result (A : Type) : Type :=
| Ok (a : A)
| Raise (e : exn).
Arguments Ok {A} a.
Arguments Raise {A} e.

Definition rbind {A B} (r : result A) (f : A -> result B) : result B :=
  match r with
  | Ok a => f a
  | Raise e => Raise e
  end.

(** [for x in xs: f x] collecting results, as a list comprehension does:
    left to right, the first exception aborts. *)
Fixpoint rmap {A B} (f : A -> result B) (xs : list A) : result (list B) :=
  match xs with
  | [] => Ok []
  | x :: xs' =>
      rbind (f x) (fun y => rbind (rmap f xs') (fun ys => Ok (y :: ys)))
  end.

(** [a % b] on Python ints: floor remainder (sign of the divisor), and
    [ZeroDivisionError] when [b] is 0.  [Z.modulo] is the floor remainder. *)
Definition mod_ (a b : Z) : result Z :=
  if b =? 0 then Raise ZeroDivisionError else Ok (a mod b).

(** [range(start, stop, step)], by counting: [count] elements
    [start + i*step]. *)
Definition range_len (start stop step : Z) : Z :=
  if 0 <? step then
    if start <? stop then (stop - start - 1) / step + 1 else 0
  else
    if stop <? start then (start - stop - 1) / (- step) + 1 else 0.

Definition range3 (start stop step : Z) : result (list Z) :=
  if step =? 0 then Raise ValueError
  else Ok (map (fun i => start + Z.of_nat i * step)
               (seq 0 (Z.to_nat (range_len start stop step)))).

(** [range(n)] *)
Definition range (n : Z) : list Z :=
  map Z.of_nat (seq 0 (Z.to_nat n)).

(** [str(n)] for an int. *)
Definition str (n : Z) : string :=
  NilZero.string_of_int (Z.to_int n).

(** [s.startswith(p)] *)
Definition startswith (s p : string) : bool := String.prefix p s.

(** [s.split(sep)] for a non-empty [sep]: the pieces between the
    non-overlapping occurrences of [sep], scanning from the left.  The
    result is never empty; it is returned as head piece and further pieces.
    [skip] counts characters of a separator occurrence still to be passed. *)
Fixpoint split_go (sep s : string) (skip : nat) : string * list string :=
  match s with
  | EmptyString => (EmptyString, [])
  | String c s' =>
      match skip with
      | S k => split_go sep s' k
      | O =>
          if String.prefix sep s then
            let '(h, t) := split_go sep s' (String.length sep - 1) in
            (EmptyString, h :: t)
          else
            let '(h, t) := split_go sep s' 0 in
            (String c h, t)
      end
  end.

Definition split (s sep : string) : list string :=
  let '(h, t) := split_go sep s 0 in h :: t.

(** [xs[i]] for a non-negative index. *)
Definition index {A} (xs : list A) (i : nat) : result A :=
  match xs !! i with
  | Some x => Ok x
  | None => Raise IndexError
  end.

(** [int(s)] for a [str] of ASCII characters: surrounding whitespace (tab,
    line feed, vertical tab, form feed, carriage return, space) is
    dropped, then an optional sign, then decimal digits, single
    underscores allowed between digits.  Anything else is [ValueError].
    Python's [int] also accepts decimal digits and whitespace outside
    ASCII; a string with such characters is outside this model (see
    [ascii_only]).  A file name is shorter than the digit limit of
    [int]. *)
Definition is_space (c : ascii) : bool :=
  let n := nat_of_ascii c in
  ((9 <=? n)%nat && (n <=? 13)%nat) || (n =? 32)%nat.

Definition digit_of (c : ascii) : option N :=
  let n := N_of_ascii c in
  if ((48 <=? n) && (n <=? 57))%N then Some (n - 48)%N else None.

Fixpoint lstrip (s : string) : string :=
  match s with
  | String c s' => if is_space c then lstrip s' else s
  | EmptyString => EmptyString
  end.

(** Drops trailing whitespace: a character is kept when something that is
    not whitespace follows or it is not whitespace itself. *)
Fixpoint rstrip (s : string) : string :=
  match s with
  | EmptyString => EmptyString
  | String c s' =>
      match rstrip s' with
      | EmptyString => if is_space c then EmptyString else String c EmptyString
      | r => String c r
      end
  end.

Definition strip (s : string) : string := rstrip (lstrip s).

Inductive digit_state : Type := AtStart | AfterDigit | AfterUnderscore.

Fixpoint parse_digits (s : string) (st : digit_state) (acc : N) : option N :=
  match s with
  | EmptyString =>
      match st with AfterDigit => Some acc | _ => None end
  | String c s' =>
      match digit_of c with
      | Some d => parse_digits s' AfterDigit (10 * acc + d)%N
      | None =>
          if Ascii.eqb c "_" then
            match st with
            | AfterDigit => parse_digits s' AfterUnderscore acc
            | _ => None
            end
          else None
      end
  end.

Definition int (s : string) : result Z :=
  let body := strip s in
  let '(neg, ds) :=
    match body with
    | String "-" r => (true, r)
    | String "+" r => (false, r)
    | _ => (false, body)
    end in
  match parse_digits ds AtStart 0 with
  | Some n => Ok (if neg : bool then - Z.of_N n else Z.of_N n)
  | None => Raise ValueError
  end.

(** [max(xs)] for a non-empty list of ints (called only on non-empty
    lists by the driver). *)
Definition max_list (x : Z) (xs : list Z) : Z := fold_left Z.max xs x.

End Py.

Import Py.

(** ** Run numbering (main.py, lines 27-36) *)

(** What the driver sees of the file system at startup: whether
    [MODEL_DIR] exists and the names of its entries in [iterdir()] order.
    The code never asks whether an entry is a directory. *)
Record model_dir := {
  dir_exists : bool;
  dir_entries : list string;
}.

(** [[int(str(folder.name).split('run')[1]) for folder in MODEL_DIR.iterdir()
      if str(folder.name).startswith('run')]] *)
Definition exst_run_nums (names : list string) : result (list Z) :=
  rmap (fun name => rbind (index (split name "run") 1) int)
       (filter (fun name => startswith name "run" = true) names).

Definition next_run_num (d : model_dir) : result Z :=
  if dir_exists d then
    rbind (exst_run_nums (dir_entries d)) (fun nums =>
      match nums with
      | [] => Ok 1
      | n :: ns => Ok (max_list n ns + 1)
      end)
  else Ok 1.

(** ** The replay buffer

    [utils/buffer.py] is not part of the sources at hand; [main.py] only
    constructs the buffer and calls [push], [sample], [len] and
    [get_average_rewards] on it. *)

Module ReplayBuffer.

Section Ring.
Context {A : Type}.

(** Modelled from the spec: the class [ReplayBuffer] of [utils/buffer.py]
    is missing.  Following the Transition Buffer of the spec: ring arrays
    of fixed capacity [C], a write cursor that wraps modulo [C] and a
    filled count that saturates at [C].  The per-agent arrays share cursor
    and count, so one slot holds one transition for all agents.  A slot
    that was never written is [None]. *)
Record t : Type := {
  max_steps : nat;
  slots : list (option A);
  curr_i : nat;
  filled_i : nat;
}.

Definition new (C : nat) : t :=
  {| max_steps := C; slots := replicate C None; curr_i := 0; filled_i := 0 |}.

(** One ring-buffer entry written at the cursor. *)
Definition push_one (b : t) (x : A) : t :=
  {| max_steps := max_steps b;
     slots := <[curr_i b := Some x]> (slots b);
     curr_i := (curr_i b + 1) mod max_steps b;
     filled_i := Nat.min (filled_i b + 1) (max_steps b) |}.

(** Modelled from the spec: [push] writes a batch of [B] entries as [B]
    individual ring-buffer entries starting at the current cursor. *)
Definition push (b : t) (batch : list A) : t :=
  fold_left push_one batch b.

(** [len()] returns the filled count. *)
Definition len (b : t) : nat := filled_i b.

(** The slots read contiguously in insertion order, ending at the cursor
    and wrapping through the ring. *)
Definition ordered (b : t) : list (option A) :=
  if (filled_i b <? max_steps b)%nat then take (filled_i b) (slots b)
  else drop (curr_i b) (slots b) ++ take (curr_i b) (slots b).

(** The stored entries, oldest first. *)
Definition stored (b : t) : list A := omap id (ordered b).

(** The last [n] elements of a list. *)
Definition lastn {X} (n : nat) (l : list X) : list X :=
  drop (length l - n) l.

(** Modelled from the spec: [sample] reads the slots at the drawn indices,
    which lie in [[0, filled_count)]; the indices are the random draws.
    It fails on an empty buffer. *)
Definition sample (b : t) (draws : list nat) : option (list A) :=
  if (filled_i b =? 0)%nat then None
  else mapM (fun i => if (i <? filled_i b)%nat then mjoin (slots b !! i) else None) draws.

End Ring.
Arguments t A : clear implicits.

(** Modelled from the spec: [get_average_rewards(window)] is, per agent,
    the mean reward over the most recent [window] entries in insertion
    order.  An entry is the list of per-agent rewards of one transition;
    rewards are rationals in lowest terms here. *)
Definition mean (qs : list Q) : Q :=
  Qred (fold_right Qplus 0%Q qs / inject_Z (Z.of_nat (length qs))).

Definition get_average_rewards (nagents : nat) (b : t (list Q)) (window : Z)
  : list Q :=
  let recent := lastn (Z.to_nat window) (stored b) in
  map (fun a => mean (map (fun rews => nth a rews 0%Q) recent)) (seq 0 nagents).

End ReplayBuffer.

(** ** The driver *)

(** The command-line configuration read by [run].  The learner's
    hyperparameters (learning rates, hidden sizes, tau, gamma, reward
    scale) are only handed to the learner and are left out. *)
Record config : Type := {
  env_id : string;
  model_name : string;
  n_rollout_threads : Z;
  buffer_length : Z;
  n_episodes : Z;
  episode_length : Z;
  steps_per_update : Z;
  num_updates : Z;
  batch_size : Z;
  save_interval : Z;
}.

(** A [pathlib.Path] as its components; [p / name] appends one. *)
Definition path : Type := list string.

Definition MODEL_DIR (cfg : config) : path :=
  ["models"; env_id cfg; model_name cfg].
Definition CURR_RUN (run_num : Z) : string := "run" +:+ str run_num.
Definition RUN_DIR (cfg : config) (run_num : Z) : path :=
  MODEL_DIR cfg ++ [CURR_RUN run_num].
Definition LOG_DIR (cfg : config) (run_num : Z) : path :=
  RUN_DIR cfg run_num ++ ["logs"].

(** The collaborators of the driver.  [policy k a w] is the action the
    learner returns at global step [k] for agent [a] and environment
    worker [w]; [env_batch k n] is what the [n] workers return at step [k],
    as handed to [push].  The float product of a mean reward and the
    episode length is [scale]. *)
Class Collaborators : Type := {
  Action : Type;
  Reward : Type;
  Batch : Type;
  Buffer : Type;
  nagents : nat;
  policy : nat -> nat -> nat -> Action;
  env_batch : nat -> nat -> Batch;
  new_buffer : Z -> nat -> Buffer;
  push : Buffer -> Batch -> Buffer;
  len : Buffer -> nat;
  get_average_rewards : Buffer -> Z -> list Reward;
  scale : Reward -> Z -> Reward;
}.

Section Driver.
Context {env : Collaborators}.

(** The calls the driver makes on its collaborators, in program order.
    A sampled batch is named by the step and the repetition that drew it. *)
Inductive event : Type :=
| EvMakedirs (p : path) (exist_ok : bool)
| EvSummaryWriter (p : path)
| EvTorchSeed (seed : Z)
| EvNumpySeed (seed : Z)
| EvSubprocVecEnv (id : string) (worker_seeds : list Z)
| EvInitFromEnv
| EvReplayBuffer (capacity : Z)
| EvPrint (line : string)
| EvEnvReset
| EvPrepRollouts
| EvModelStep (k : nat)
| EvEnvStep (actions : list (list Action))
| EvPush (k : nat)
| EvPrepTraining
| EvSample (k : nat) (rep : Z) (size : Z)
| EvUpdateCritic (k : nat) (rep : Z)
| EvUpdatePolicies (k : nat) (rep : Z)
| EvUpdateAllTargets
| EvAddScalar (tag : string) (value : Reward) (step : Z)
| EvSave (p : path)
| EvEnvClose
| EvExportScalars (p : path)
| EvLoggerClose.

(** [make_parallel_env]: one environment constructor per rank in
    [range(n_rollout_threads)], seeded with [seed + rank * 1000]. *)
Definition make_parallel_env (id : string) (n_rollout_threads seed : Z)
  : event :=
  EvSubprocVecEnv id (map (fun rank => seed + rank * 1000) (range n_rollout_threads)).

(** The mutable locals of [run] inside the loops. *)
Record state : Type := {
  t : Z;
  replay_buffer : Buffer;
  steps_done : nat;
}.

(** State, trace and exceptions: the events emitted so far survive an
    exception. *)
Definition M (X : Type) : Type := state -> list event * result (X * state).

Definition ret {X} (x : X) : M X := fun s => ([], Ok (x, s)).

Definition bind {X Y} (m : M X) (f : X -> M Y) : M Y := fun s =>
  match m s with
  | (tr, Ok (x, s')) => let '(tr', r) := f x s' in (tr ++ tr', r)
  | (tr, Raise e) => (tr, Raise e)
  end.

Definition emit (e : event) : M unit := fun s => ([e], Ok (tt, s)).
Definition lift {X} (r : result X) : M X := fun s =>
  match r with
  | Ok x => ([], Ok (x, s))
  | Raise e => ([], Raise e)
  end.
Definition get : M state := fun s => ([], Ok (s, s)).
Definition put (s : state) : M unit := fun _ => ([], Ok (tt, s)).

Notation "'let*' x ':=' m 'in' k" := (bind m (fun x => k))
  (at level 10, x name, m at level 100, k at level 200, only parsing).
Notation "m ';;' k" := (bind m (fun _ => k))
  (at level 100, k at level 200, right associativity, only parsing).

(** [for x in xs: body x] *)
Fixpoint for_ {X} (xs : list X) (body : X -> M unit) : M unit :=
  match xs with
  | [] => ret tt
  | x :: xs' => body x ;; for_ xs' body
  end.

(** Lines 93-99: one update burst. *)
Definition update_burst (cfg : config) (k : nat) : M unit :=
  emit EvPrepTraining ;;
  for_ (range (num_updates cfg)) (fun rep =>
    emit (EvSample k rep (batch_size cfg)) ;;
    emit (EvUpdateCritic k rep) ;;
    emit (EvUpdatePolicies k rep) ;;
    emit EvUpdateAllTargets) ;;
  emit EvPrepRollouts.

(** Lines 91-92: the condition of the [if], with the short circuit of
    [and]. *)
Definition update_due (cfg : config) (s : state) : result bool :=
  if batch_size cfg <=? Z.of_nat (len (replay_buffer s)) then
    rbind (mod_ (t s) (steps_per_update cfg)) (fun r =>
      Ok (r <? n_rollout_threads cfg))
  else Ok false.

(** Lines 84-85: the actions re-laid out per environment. *)
Definition agent_actions (k nworkers : nat) : list (list Action) :=
  map (fun a => map (policy k a) (seq 0 nworkers)) (seq 0 nagents).

Definition per_env_actions (cfg : config) (acs : list (list Action))
  : result (list (list Action)) :=
  rmap (fun i => rmap (fun ac => index ac (Z.to_nat i)) acs)
       (range (n_rollout_threads cfg)).

(** Lines 76-99: the body of the inner loop. *)
Definition rollout_step (cfg : config) (nworkers : nat) : M unit :=
  let* s := get in
  let k := steps_done s in
  emit (EvModelStep k) ;;
  let* actions := lift (per_env_actions cfg (agent_actions k nworkers)) in
  emit (EvEnvStep actions) ;;
  emit (EvPush k) ;;
  let s' := {| t := t s + n_rollout_threads cfg;
               replay_buffer := push (replay_buffer s) (env_batch k nworkers);
               steps_done := S k |} in
  put s' ;;
  let* due := lift (update_due cfg s') in
  if due : bool then update_burst cfg k else ret tt.

(** Lines 101-105. *)
Definition log_rewards (cfg : config) (ep_i : Z) : M unit :=
  let* s := get in
  let ep_rews := get_average_rewards (replay_buffer s)
                   (episode_length cfg * n_rollout_threads cfg) in
  for_ (imap (fun a_i a_ep_rew => (a_i, a_ep_rew)) ep_rews)
    (fun '(a_i, a_ep_rew) =>
       emit (EvAddScalar ("agent" +:+ str (Z.of_nat a_i) +:+ "/mean_episode_rewards")
                         (scale a_ep_rew (episode_length cfg)) ep_i)).

(** Lines 107-111. *)
Definition incremental_path (cfg : config) (run_num ep_i : Z) : path :=
  RUN_DIR cfg run_num ++ ["incremental"; "model_ep" +:+ str (ep_i + 1) +:+ ".pt"].
Definition model_path (cfg : config) (run_num : Z) : path :=
  RUN_DIR cfg run_num ++ ["model.pt"].

Definition checkpoint (cfg : config) (run_num ep_i : Z) : M unit :=
  let* r := lift (mod_ ep_i (save_interval cfg)) in
  if r <? n_rollout_threads cfg then
    emit EvPrepRollouts ;;
    emit (EvMakedirs (RUN_DIR cfg run_num ++ ["incremental"]) true) ;;
    emit (EvSave (incremental_path cfg run_num ep_i)) ;;
    emit (EvSave (model_path cfg run_num))
  else ret tt.

(** Lines 70-111: the body of the outer loop. *)
Definition episode (cfg : config) (run_num : Z) (nworkers : nat) (ep_i : Z)
  : M unit :=
  emit (EvPrint ("Episodes " +:+ str (ep_i + 1) +:+ "-"
                 +:+ str (ep_i + 1 + n_rollout_threads cfg)
                 +:+ " of " +:+ str (n_episodes cfg))) ;;
  emit EvEnvReset ;;
  emit EvPrepRollouts ;;
  for_ (range (episode_length cfg)) (fun _ => rollout_step cfg nworkers) ;;
  log_rewards cfg ep_i ;;
  checkpoint cfg run_num ep_i.

(** Lines 113-116. *)
Definition shutdown (cfg : config) (run_num : Z) : M unit :=
  emit (EvSave (model_path cfg run_num)) ;;
  emit EvEnvClose ;;
  emit (EvExportScalars (LOG_DIR cfg run_num ++ ["summary.json"])) ;;
  emit EvLoggerClose.

(** Lines 68-116. *)
Definition training (cfg : config) (run_num : Z) (nworkers : nat) : M unit :=
  let* eps := lift (range3 0 (n_episodes cfg) (n_rollout_threads cfg)) in
  for_ eps (episode cfg run_num nworkers) ;;
  shutdown cfg run_num.

(** Lines 36-66: what happens between run numbering and the loops. *)
Definition worker_count (cfg : config) : Z := Z.max (n_rollout_threads cfg) 2.

Definition startup (cfg : config) (run_num : Z) : list event :=
  [ EvMakedirs (LOG_DIR cfg run_num) false;
    EvSummaryWriter (LOG_DIR cfg run_num);
    EvTorchSeed run_num;
    EvNumpySeed run_num;
    make_parallel_env (env_id cfg) (worker_count cfg) run_num;
    EvInitFromEnv;
    EvReplayBuffer (buffer_length cfg) ].

Definition initial_state (cfg : config) : state :=
  {| t := 0;
     replay_buffer := new_buffer (buffer_length cfg) nagents;
     steps_done := 0 |}.

(** [run(config)]: the trace of collaborator calls, and how it ended. *)
Definition run (cfg : config) (d : model_dir) : list event * result unit :=
  match next_run_num d with
  | Raise e => ([], Raise e)
  | Ok run_num =>
      let nworkers := Z.to_nat (worker_count cfg) in
      match training cfg run_num nworkers (initial_state cfg) with
      | (tr, Ok _) => (startup cfg run_num ++ tr, Ok tt)
      | (tr, Raise e) => (startup cfg run_num ++ tr, Raise e)
      end
  end.

End Driver.

(** ** The trace of a run in closed form

    After [n] rollout steps the locals of [run] are determined by [n]; the
    trace of a run that raises nothing is the concatenation below.  That
    [run] produces exactly this trace is proved in [run_closed]. *)

Section Closed.
Context {env : Collaborators}.
Variable cfg : config.

Let W := n_rollout_threads cfg.
Let L := Z.to_nat (episode_length cfg).
Let nworkers := Z.to_nat (worker_count cfg).

(** The locals after one more rollout step (lines 86-89). *)
Definition stepped (s : state) : state :=
  {| t := t s + W;
     replay_buffer := push (replay_buffer s) (env_batch (steps_done s) nworkers);
     steps_done := S (steps_done s) |}.

(** The condition of the [if] of lines 91-92 where no exception is
    raised, on the state it is evaluated in. *)
Definition due (s : state) : bool :=
  (batch_size cfg <=? Z.of_nat (len (replay_buffer s)))
  && (t s mod steps_per_update cfg <? W).

Fixpoint buffer_after (n : nat) : Buffer :=
  match n with
  | O => new_buffer (buffer_length cfg) nagents
  | S n' => push (buffer_after n') (env_batch n' nworkers)
  end.

Definition state_after (n : nat) : state :=
  {| t := Z.of_nat n * W; replay_buffer := buffer_after n; steps_done := n |}.

(** Whether step [k] (counted from 0) ends in an update burst. *)
Definition fires (k : nat) : bool :=
  (batch_size cfg <=? Z.of_nat (len (buffer_after (S k))))
  && ((Z.of_nat (S k) * W) mod steps_per_update cfg <? W).

(** The step counts at which the steps [a .. a+n-1] fire. *)
Definition fired (a n : nat) : list Z :=
  map (fun k => Z.of_nat (S k) * W) (List.filter fires (seq a n)).

Definition repetition (k : nat) (rep : Z) : list event :=
  [EvSample k rep (batch_size cfg); EvUpdateCritic k rep;
   EvUpdatePolicies k rep; EvUpdateAllTargets].

Definition burst_trace (k : nat) : list event :=
  EvPrepTraining :: flat_map (repetition k) (range (num_updates cfg))
    ++ [EvPrepRollouts].

Definition actions_at (k : nat) : list (list Action) :=
  map (fun i => map (fun a => policy k a (Z.to_nat i)) (seq 0 nagents)) (range W).

Definition step_trace (k : nat) : list event :=
  [EvModelStep k; EvEnvStep (actions_at k); EvPush k]
  ++ (if fires k then burst_trace k else []).

Definition scalar_tag (a_i : nat) : string :=
  "agent" +:+ str (Z.of_nat a_i) +:+ "/mean_episode_rewards".

Definition log_trace (buf : Buffer) (ep_i : Z) : list event :=
  imap (fun a_i a_ep_rew =>
          EvAddScalar (scalar_tag a_i) (scale a_ep_rew (episode_length cfg)) ep_i)
       (get_average_rewards buf (episode_length cfg * W)).

Definition saves_at (ep_i : Z) : bool :=
  ep_i mod save_interval cfg <? W.

Definition checkpoint_trace (run_num ep_i : Z) : list event :=
  if saves_at ep_i then
    [EvPrepRollouts;
     EvMakedirs (RUN_DIR cfg run_num ++ ["incremental"]) true;
     EvSave (incremental_path cfg run_num ep_i);
     EvSave (model_path cfg run_num)]
  else [].

Definition episode_banner (ep_i : Z) : string :=
  "Episodes " +:+ str (ep_i + 1) +:+ "-" +:+ str (ep_i + 1 + W)
  +:+ " of " +:+ str (n_episodes cfg).

(** The [j]-th pass through the outer loop, with loop variable [ep_i]. *)
Definition episode_trace (run_num : Z) (j : nat) (ep_i : Z) : list event :=
  [EvPrint (episode_banner ep_i); EvEnvReset; EvPrepRollouts]
  ++ flat_map step_trace (seq (j * L) L)
  ++ log_trace (buffer_after (S j * L)) ep_i
  ++ checkpoint_trace run_num ep_i.

(** The values of [ep_i]: [range(0, n_episodes, n_rollout_threads)]. *)
Definition episodes : list Z :=
  map (fun i => 0 + Z.of_nat i * W)
      (seq 0 (Z.to_nat (range_len 0 (n_episodes cfg) W))).

Definition shutdown_trace (run_num : Z) : list event :=
  [EvSave (model_path cfg run_num); EvEnvClose;
   EvExportScalars (LOG_DIR cfg run_num ++ ["summary.json"]); EvLoggerClose].

Definition training_trace (run_num : Z) : list event :=
  concat (imap (episode_trace run_num) episodes) ++ shutdown_trace run_num.

Definition run_trace (run_num : Z) : list event :=
  startup cfg run_num ++ training_trace run_num.

(** The number of rollout steps of a whole run. *)
Definition total_steps : nat := (length episodes * L)%nat.

End Closed.

(** ** Observations of a trace *)

Section Observations.
Context {env : Collaborators}.

Definition is_prep_training (e : event) : bool :=
  match e with EvPrepTraining => true | _ => false end.
Definition is_env_step (e : event) : bool :=
  match e with EvEnvStep _ => true | _ => false end.
Definition is_update_all_targets (e : event) : bool :=
  match e with EvUpdateAllTargets => true | _ => false end.
Definition is_sample (e : event) : bool :=
  match e with EvSample _ _ _ => true | _ => false end.
Definition is_close (e : event) : bool :=
  match e with EvEnvClose | EvLoggerClose | EvExportScalars _ => true | _ => false end.

(** How many events of a kind a trace holds. *)
Definition count (p : event -> bool) (tr : list event) : nat :=
  length (List.filter p tr).

(** The global step counts at which a burst starts: the counter [t0]
    advances by [W] with every [env.step]. *)
Fixpoint fire_times (W t0 : Z) (tr : list event) : list Z :=
  match tr with
  | [] => []
  | EvEnvStep _ :: tr' => fire_times W (t0 + W) tr'
  | EvPrepTraining :: tr' => t0 :: fire_times W t0 tr'
  | _ :: tr' => fire_times W t0 tr'
  end.

(** The snapshots written, in order. *)
Definition saves (tr : list event) : list path :=
  omap (fun e => match e with EvSave p => Some p | _ => None end) tr.

(** The scalars handed to the metrics writer, in order. *)
Definition scalars (tr : list event) : list (string * Reward * Z) :=
  omap (fun e => match e with
                 | EvAddScalar tag v step => Some (tag, v, step)
                 | _ => None
                 end) tr.


End Observations.

(** ** Run numbering as the spec words it *)

(** A name of the form [run<N>], [N] a decimal numeral. *)
Definition run_name (n : N) : string := "run" +:+ str (Z.of_N n).

(** Modelled on the spec's words (for comparison with [next_run_num]): one
    greater than the maximum run index among the [run<N>] entries, or 1 if
    there is none.  [indices] are the [N] of the entries named [run<N>]. *)
Definition spec_next_run_index (indices : list N) : Z :=
  match indices with
  | [] => 1
  | n :: ns => Z.of_N (fold_left N.max ns n) + 1
  end.

(** ** A concrete world

    Two agents; the action of agent [a] for worker [w] at step [k] is the
    triple [(k, a, w)]; every transition carries the per-agent rewards
    [rewards k w]; the buffer is the ring buffer above. *)
Definition ring_world (rewards : nat -> nat -> list Q) : Collaborators :=
  {| Action := nat * nat * nat;
     Reward := Q;
     Batch := list (list Q);
     Buffer := ReplayBuffer.t (list Q);
     nagents := 2;
     policy := fun k a w => (k, a, w);
     env_batch := fun k n => map (rewards k) (seq 0 n);
     new_buffer := fun C _ => ReplayBuffer.new (Z.to_nat C);
     push := ReplayBuffer.push;
     len := ReplayBuffer.len;
     get_average_rewards := ReplayBuffer.get_average_rewards 2;
     scale := fun r n => Qred (r * inject_Z n) |}.

Definition demo_rewards (k w : nat) : list Q :=
  [inject_Z 2; inject_Z 3].

Definition demo_config : config :=
  {| env_id := "fullobs_collect_treasure";
     model_name := "test";
     n_rollout_threads := 2;
     buffer_length := 8;
     n_episodes := 4;
     episode_length := 3;
     steps_per_update := 4;
     num_updates := 2;
     batch_size := 4;
     save_interval := 4 |}.

Definition demo_dir : model_dir :=
  {| dir_exists := true; dir_entries := ["run1"; "run3"; "notes.txt"] |}.

Definition demo_world : Collaborators := ring_world demo_rewards.

(** The scenario of the spec: steps_per_update = 100, W = 12 and a buffer
    that is always ready; two passes of the episode loop, 50 steps. *)
Definition scenario_config : config :=
  {| env_id := "fullobs_collect_treasure";
     model_name := "test";
     n_rollout_threads := 12;
     buffer_length := 64;
     n_episodes := 24;
     episode_length := 25;
     steps_per_update := 100;
     num_updates := 4;
     batch_size := 0;
     save_interval := 1000 |}.

(** A stride larger than the period: W = 12, steps_per_update = 5; one
    episode of one step. *)
Definition wide_stride_config : config :=
  {| env_id := "fullobs_collect_treasure";
     model_name := "test";
     n_rollout_threads := 12;
     buffer_length := 64;
     n_episodes := 12;
     episode_length := 1;
     steps_per_update := 5;
     num_updates := 1;
     batch_size := 0;
     save_interval := 1000 |}.

(** The demo configuration with one field changed. *)
Definition with_threads (n : Z) (cfg : config) : config :=
  {| env_id := env_id cfg; model_name := model_name cfg;
     n_rollout_threads := n; buffer_length := buffer_length cfg;
     n_episodes := n_episodes cfg; episode_length := episode_length cfg;
     steps_per_update := steps_per_update cfg; num_updates := num_updates cfg;
     batch_size := batch_size cfg; save_interval := save_interval cfg |}.

Definition with_steps_per_update (n : Z) (cfg : config) : config :=
  {| env_id := env_id cfg; model_name := model_name cfg;
     n_rollout_threads := n_rollout_threads cfg;
     buffer_length := buffer_length cfg;
     n_episodes := n_episodes cfg; episode_length := episode_length cfg;
     steps_per_update := n; num_updates := num_updates cfg;
     batch_size := batch_size cfg; save_interval := save_interval cfg |}.

Definition with_save_interval (n : Z) (cfg : config) : config :=
  {| env_id := env_id cfg; model_name := model_name cfg;
     n_rollout_threads := n_rollout_threads cfg;
     buffer_length := buffer_length cfg;
     n_episodes := n_episodes cfg; episode_length := episode_length cfg;
     steps_per_update := steps_per_update cfg; num_updates := num_updates cfg;
     batch_size := batch_size cfg; save_interval := n |}.

(** Where in a trace the first and the last event of a kind stand. *)
Fixpoint first_index `{Collaborators} (p : event -> bool) (tr : list event)
  : option nat :=
  match tr with
  | [] => None
  | e :: tr' => if p e then Some 0%nat else option_map S (first_index p tr')
  end.

Fixpoint last_index `{Collaborators} (p : event -> bool) (tr : list event)
  : option nat :=
  match tr with
  | [] => None
  | e :: tr' =>
      match last_index p tr' with
      | Some i => Some (S i)
      | None => if p e then Some 0%nat else None
      end
  end.

Definition is_save `{Collaborators} (e : event) : bool :=
  match e with EvSave _ => true | _ => false end.


(** ** Auxiliary notions for the proofs *)

(** The value of a decimal numeral read left to right from [acc]. *)
Fixpoint uint_value (d : uint) (acc : N) : N :=
  match d with
  | Nil => acc
  | D0 l => uint_value l (10 * acc + 0)
  | D1 l => uint_value l (10 * acc + 1)
  | D2 l => uint_value l (10 * acc + 2)
  | D3 l => uint_value l (10 * acc + 3)
  | D4 l => uint_value l (10 * acc + 4)
  | D5 l => uint_value l (10 * acc + 5)
  | D6 l => uint_value l (10 * acc + 6)
  | D7 l => uint_value l (10 * acc + 7)
  | D8 l => uint_value l (10 * acc + 8)
  | D9 l => uint_value l (10 * acc + 9)
  end%N.

Fixpoint digits_only (s : string) : bool :=
  match s with
  | EmptyString => true
  | String c s' =>
      match digit_of c with Some _ => digits_only s' | None => false end
  end.

(** An entry of the model directory: a run directory [run<N>], or
    something else under its name. *)
Definition entry_name (e : N + string) : string :=
  match e with
  | inl n => run_name n
  | inr name => name
  end.

Definition run_indices (entries : list (N + string)) : list N :=
  omap (fun e => match e with inl n => Some n | inr _ => None end) entries.

(** The events of the inner loop. *)
Definition in_rollout `{Collaborators} (e : event) : bool :=
  match e with
  | EvModelStep _ | EvEnvStep _ | EvPush _ | EvPrepTraining | EvSample _ _ _
  | EvUpdateCritic _ _ | EvUpdatePolicies _ _ | EvUpdateAllTargets
  | EvPrepRollouts => true
  | _ => false
  end.

(** The shape every reachable ring buffer has. *)
Definition ring_wf {A} (b : ReplayBuffer.t A) : Prop :=
  length (ReplayBuffer.slots b) = ReplayBuffer.max_steps b
  /\ (0 < ReplayBuffer.max_steps b)%nat
  /\ (ReplayBuffer.curr_i b < ReplayBuffer.max_steps b)%nat
  /\ (ReplayBuffer.filled_i b <= ReplayBuffer.max_steps b)%nat
  /\ ((ReplayBuffer.filled_i b < ReplayBuffer.max_steps b)%nat ->
      ReplayBuffer.curr_i b = ReplayBuffer.filled_i b).

(** Lines 30 and 32 on the parsed indices: the index of the new run. *)
Definition run_num_after (nums : list Z) : Z :=
  match nums with
  | [] => 1
  | n :: ns => max_list n ns + 1
  end.

(** What line 30 computes for one entry name. *)
Definition parse_run_name (name : string) : result Z :=
  rbind (index (split name "run") 1) int.

(** More kinds of events. *)
Definition is_reset `{Collaborators} (e : event) : bool :=
  match e with EvEnvReset => true | _ => false end.
Definition is_model_step `{Collaborators} (e : event) : bool :=
  match e with EvModelStep _ => true | _ => false end.
Definition is_push `{Collaborators} (e : event) : bool :=
  match e with EvPush _ => true | _ => false end.

(** The calls on the learner inside an update burst. *)
Definition is_learner_call `{Collaborators} (e : event) : bool :=
  match e with
  | EvPrepTraining | EvSample _ _ _ | EvUpdateCritic _ _
  | EvUpdatePolicies _ _ | EvUpdateAllTargets | EvPrepRollouts => true
  | _ => false
  end.

(** The events that drive the simulation: reset, model step, environment
    step and push. *)
Definition is_simulation `{Collaborators} (e : event) : bool :=
  is_reset e || is_model_step e || is_env_step e || is_push e.

(** The learner's mode as [prep_rollouts] and [prep_training] set it. *)
Inductive mode : Type := ModeUnset | ModeRollout | ModeTraining.

Definition mode_step `{Collaborators} (m : mode) (e : event) : mode :=
  match e with
  | EvPrepRollouts => ModeRollout
  | EvPrepTraining => ModeTraining
  | _ => m
  end.

(** Acting needs rollout mode, sampling and updating need training mode,
    and a snapshot is not taken in training mode. *)
Definition mode_allows `{Collaborators} (m : mode) (e : event) : bool :=
  match e with
  | EvModelStep _ =>
      match m with ModeRollout => true | _ => false end
  | EvSample _ _ _ | EvUpdateCritic _ _ | EvUpdatePolicies _ _
  | EvUpdateAllTargets =>
      match m with ModeTraining => true | _ => false end
  | EvSave _ =>
      match m with ModeTraining => false | _ => true end
  | _ => true
  end.

Fixpoint mode_ok `{Collaborators} (m : mode) (tr : list event) : bool :=
  match tr with
  | [] => true
  | e :: tr' => mode_allows m e && mode_ok (mode_step m e) tr'
  end.

Definition mode_after `{Collaborators} (m : mode) (tr : list event) : mode :=
  fold_left mode_step tr m.

(** What holds of a [sample] call of a run: it asks for batch_size
    entries, in a repetition of a burst, at a step that passed the test of
    lines 91-92. *)
Definition sample_ready `{Collaborators} (cfg : config) (e : event) : Prop :=
  match e with
  | EvSample k rep size =>
      size = batch_size cfg
      /\ 0 <= rep < num_updates cfg
      /\ batch_size cfg <= Z.of_nat (len (buffer_after cfg (S k)))
      /\ (Z.of_nat (S k) * n_rollout_threads cfg) mod steps_per_update cfg
         < n_rollout_threads cfg
  | _ => True
  end.

(** The strings on which the model of [int] is Python's: every character
    is an ASCII character. *)
Fixpoint ascii_only (s : string) : bool :=
  match s with
  | EmptyString => true
  | String c s' => (N_of_ascii c <? 128)%N && ascii_only s'
  end.

(** * Facts *)

(** ** Python strings and numerals *)

Section StringFacts.

Lemma digit_char (c : ascii) (d : N) :
  digit_of c = Some d ->
  is_space c = false /\ Ascii.eqb c "_" = false /\ c <> "r"%char
  /\ c <> "-"%char /\ c <> "+"%char.
Proof.
  destruct c as [[] [] [] [] [] [] [] []]; vm_compute; intros H;
    try discriminate H; repeat split; discriminate.
Qed.

Lemma digits_only_uint (d : uint) :
  digits_only (NilEmpty.string_of_uint d) = true.
Proof. induction d; simpl; auto. Qed.

Lemma str_of_N (n : N) :
  str (Z.of_N n) = NilEmpty.string_of_uint (N.to_uint n) /\ N.to_uint n <> Nil.
Proof.
  destruct n as [|p]; [split; [reflexivity | discriminate]|].
  pose proof (DecimalPos.Unsigned.to_uint_nonnil p) as Hp.
  split; [| exact Hp]. unfold str. simpl.
  destruct (Pos.to_uint p); [contradiction | reflexivity ..].
Qed.

Lemma parse_digits_uint (d : uint) (st : digit_state) (acc : N) :
  d <> Nil \/ st = AfterDigit ->
  parse_digits (NilEmpty.string_of_uint d) st acc = Some (uint_value d acc).
Proof.
  revert st acc. induction d; intros st acc H; simpl;
    try (apply IHd; right; reflexivity).
  destruct H as [H | ->]; [contradiction | reflexivity].
Qed.

Lemma uint_value_pos (d : uint) (p : positive) :
  uint_value d (Npos p) = Npos (Pos.of_uint_acc d p).
Proof.
  revert p. induction d; intros p; simpl; [reflexivity | ..];
    rewrite <- IHd; f_equal; lia.
Qed.

Lemma uint_value_0 (d : uint) : uint_value d 0 = N.of_uint d.
Proof.
  induction d; simpl; [reflexivity | exact IHd | ..];
    rewrite <- uint_value_pos; reflexivity.
Qed.

Lemma lstrip_digits (s : string) : digits_only s = true -> lstrip s = s.
Proof.
  destruct s as [|c s]; simpl; [reflexivity|].
  destruct (digit_of c) eqn:E; [|discriminate]. intros _.
  apply digit_char in E as (-> & _). reflexivity.
Qed.

Lemma rstrip_digits (s : string) : digits_only s = true -> rstrip s = s.
Proof.
  induction s as [|c s IH]; simpl; [reflexivity|].
  destruct (digit_of c) eqn:E; [|discriminate]. intros H.
  rewrite (IH H). apply digit_char in E as (-> & _).
  destruct s; reflexivity.
Qed.

Lemma int_of_str (n : N) : int (str (Z.of_N n)) = Ok (Z.of_N n).
Proof.
  destruct (str_of_N n) as [-> Hn].
  pose proof (digits_only_uint (N.to_uint n)) as Hd.
  unfold int, strip. rewrite (lstrip_digits _ Hd), (rstrip_digits _ Hd).
  assert (Hsign : forall ds, digits_only ds = true ->
            match ds with
            | String "-" r => (true, r)
            | String "+" r => (false, r)
            | _ => (false, ds)
            end = (false, ds)).
  { intros [|c ds]; simpl; [reflexivity|].
    destruct (digit_of c) eqn:E; [|discriminate]. intros _.
    apply digit_char in E as (_ & _ & _ & Hm & Hp).
    destruct c as [[] [] [] [] [] [] [] []]; try reflexivity; congruence. }
  rewrite (Hsign _ Hd).
  rewrite parse_digits_uint by (left; exact Hn).
  rewrite uint_value_0, DecimalN.Unsigned.of_to. reflexivity.
Qed.

Lemma prefix_run_ne (c : ascii) (s : string) :
  c <> "r"%char -> String.prefix "run" (String c s) = false.
Proof.
  intros Hc. cbn -[ascii_dec].
  destruct (ascii_dec "r" c) as [Heq|_]; [congruence | reflexivity].
Qed.

Lemma split_go_digits (s : string) :
  digits_only s = true -> split_go "run" s 0 = (s, []).
Proof.
  induction s as [|c s IH]; [reflexivity|].
  cbn [digits_only]. destruct (digit_of c) eqn:E; [|discriminate]. intros H.
  apply digit_char in E as (_ & _ & Hr & _).
  cbn [split_go]. rewrite (prefix_run_ne _ _ Hr), (IH H). reflexivity.
Qed.

Lemma prefix_run (s : string) :
  String.prefix "run" (String "r" (String "u" (String "n" s))) = true.
Proof. destruct s; reflexivity. Qed.

Lemma split_run_name (n : N) :
  split (run_name n) "run" = [EmptyString; str (Z.of_N n)].
Proof.
  unfold split, run_name.
  change ("run" +:+ str (Z.of_N n))
    with (String "r" (String "u" (String "n" (str (Z.of_N n))))).
  cbn [split_go]. rewrite prefix_run.
  change (String.length "run" - 1)%nat with 2%nat. cbn [split_go].
  rewrite split_go_digits; [reflexivity|].
  destruct (str_of_N n) as [-> _]. apply digits_only_uint.
Qed.

Lemma startswith_run_name (n : N) : startswith (run_name n) "run" = true.
Proof. apply prefix_run. Qed.

End StringFacts.


(** ** The monad and the loops *)

Section MonadFacts.
Context {env : Collaborators}.

Lemma rmap_ok {X Y} (f : X -> result Y) (g : X -> Y) (xs : list X) :
  (forall x, In x xs -> f x = Ok (g x)) -> rmap f xs = Ok (map g xs).
Proof.
  induction xs as [|x xs IH]; intros Hf; simpl; [reflexivity|].
  rewrite Hf by (left; reflexivity). simpl.
  rewrite IH by (intros y Hy; apply Hf; right; exact Hy).
  reflexivity.
Qed.

Lemma bind_ok {X Y} (m : M X) (f : X -> M Y) s tr x s' tr' r :
  m s = (tr, Ok (x, s')) -> f x s' = (tr', r) -> bind m f s = (tr ++ tr', r).
Proof. intros Hm Hf. unfold bind. rewrite Hm, Hf. reflexivity. Qed.

(** A loop whose [i]-th pass takes state [g i] to [g (S i)] with trace
    [f i x] runs through, and its trace is the concatenation. *)
Lemma for_closed {X} (body : X -> M unit) (f : nat -> X -> list event)
    (g : nat -> state) (xs : list X) (i0 : nat) :
  (forall i x, xs !! i = Some x ->
     body x (g (i0 + i)%nat) = (f (i0 + i)%nat x, Ok (tt, g (S (i0 + i))))) ->
  for_ xs body (g i0)
  = (concat (imap (fun i => f (i0 + i)%nat) xs), Ok (tt, g (i0 + length xs)%nat)).
Proof.
  revert i0. induction xs as [|x xs IH]; intros i0 Hbody; simpl.
  - rewrite Nat.add_0_r. reflexivity.
  - pose proof (Hbody 0%nat x eq_refl) as H0. rewrite Nat.add_0_r in H0.
    erewrite bind_ok; [| exact H0 |].
    2:{ apply (IH (S i0)). intros i y Hy.
        replace (S i0 + i)%nat with (i0 + S i)%nat by lia.
        apply Hbody. exact Hy. }
    f_equal.
    + rewrite Nat.add_0_r. f_equal. f_equal.
      apply imap_ext. intros i y _. simpl. f_equal. lia.
    + do 3 f_equal. lia.
Qed.

(** The same for a loop that leaves the state alone. *)
Lemma for_pure {X} (body : X -> M unit) (f : X -> list event) (xs : list X) s :
  (forall x, In x xs -> body x s = (f x, Ok (tt, s))) ->
  for_ xs body s = (flat_map f xs, Ok (tt, s)).
Proof.
  induction xs as [|x xs IH]; intros Hbody; simpl; [reflexivity|].
  erewrite bind_ok; [reflexivity | apply Hbody; left; reflexivity |].
  apply IH. intros y Hy. apply Hbody. right. exact Hy.
Qed.

End MonadFacts.

(** ** The driver against its closed form *)

Section DriverFacts.
Context {env : Collaborators}.
Variable cfg : config.

Let W := n_rollout_threads cfg.
Let nworkers := Z.to_nat (worker_count cfg).

Lemma in_range (n i : Z) : In i (range n) <-> 0 <= i < n.
Proof.
  unfold range. rewrite in_map_iff. split.
  - intros (j & <- & Hj). apply in_seq in Hj. lia.
  - intros Hi. exists (Z.to_nat i). split; [lia|]. apply in_seq. lia.
Qed.

Lemma length_range (n : Z) : length (range n) = Z.to_nat n.
Proof. unfold range. rewrite length_map, length_seq. reflexivity. Qed.

(** The re-layout never indexes out of range: there are at least
    [n_rollout_threads] rows per agent. *)
Lemma per_env_actions_ok (k : nat) :
  per_env_actions cfg (agent_actions k nworkers) = Ok (actions_at cfg k).
Proof.
  unfold per_env_actions, actions_at, agent_actions.
  apply rmap_ok. intros i Hi. apply in_range in Hi.
  rewrite (rmap_ok _ (fun ac => default (policy k 0 0) (ac !! Z.to_nat i))).
  - f_equal. rewrite map_map. apply map_ext_in. intros a _.
    rewrite list_lookup_fmap, lookup_seq_lt; [reflexivity|].
    unfold nworkers, worker_count. lia.
  - intros ac Hac. apply in_map_iff in Hac as (a & <- & _).
    unfold index. rewrite list_lookup_fmap, lookup_seq_lt; [reflexivity|].
    unfold nworkers, worker_count. lia.
Qed.

Lemma update_burst_closed (k : nat) (s : state) :
  update_burst cfg k s = (burst_trace cfg k, Ok (tt, s)).
Proof.
  unfold update_burst, burst_trace.
  erewrite bind_ok; [| reflexivity |].
  2:{ erewrite bind_ok; [reflexivity | | reflexivity].
      apply (for_pure _ (repetition cfg k)). intros rep _. reflexivity. }
  reflexivity.
Qed.

Lemma update_due_ok (s : state) :
  steps_per_update cfg <> 0 -> update_due cfg s = Ok (due cfg s).
Proof.
  intros HS. unfold update_due, due, mod_.
  destruct (batch_size cfg <=? _); [|reflexivity].
  apply Z.eqb_neq in HS. rewrite HS. reflexivity.
Qed.

Lemma rollout_step_spec (s : state) :
  steps_per_update cfg <> 0 ->
  rollout_step cfg nworkers s
  = ([EvModelStep (steps_done s); EvEnvStep (actions_at cfg (steps_done s));
      EvPush (steps_done s)]
     ++ (if due cfg (stepped cfg s) then burst_trace cfg (steps_done s) else []),
     Ok (tt, stepped cfg s)).
Proof.
  intros HS. unfold rollout_step.
  unfold bind at 1. unfold get at 1.
  unfold bind at 1. unfold emit at 1.
  unfold bind at 1. rewrite per_env_actions_ok. unfold lift at 1.
  unfold bind at 1. unfold emit at 1.
  unfold bind at 1. unfold emit at 1.
  unfold bind at 1. unfold put at 1.
  unfold bind at 1. rewrite (update_due_ok _ HS).
  unfold lift at 1. unfold stepped.
  destruct (due _).
  - rewrite update_burst_closed. reflexivity.
  - reflexivity.
Qed.

Lemma stepped_state_after (k : nat) :
  stepped cfg (state_after cfg k) = state_after cfg (S k).
Proof.
  unfold stepped, state_after. simpl. f_equal. lia.
Qed.

Lemma due_state_after (k : nat) :
  due cfg (state_after cfg (S k)) = fires cfg k.
Proof. reflexivity. Qed.

Lemma rollout_step_closed (k : nat) :
  steps_per_update cfg <> 0 ->
  rollout_step cfg nworkers (state_after cfg k)
  = (step_trace cfg k, Ok (tt, state_after cfg (S k))).
Proof.
  intros HS. rewrite (rollout_step_spec _ HS).
  rewrite stepped_state_after, due_state_after. reflexivity.
Qed.

Lemma flat_map_enumerate {X Y} (h : nat -> X -> Y) (g : nat -> nat) (l : list X) :
  flat_map (fun '(a, x) => [h a x]) (imap (fun i x => (g i, x)) l)
  = imap (fun i x => h (g i) x) l.
Proof.
  revert g. induction l as [|x l IH]; intros g; simpl; [reflexivity|].
  f_equal. apply (IH (g ∘ S)).
Qed.

Lemma log_rewards_closed (ep_i : Z) (s : state) :
  log_rewards cfg ep_i s = (log_trace cfg (replay_buffer s) ep_i, Ok (tt, s)).
Proof.
  unfold log_rewards, log_trace.
  unfold bind at 1. unfold get at 1.
  erewrite (for_pure _ (fun '(a_i, a_ep_rew) =>
     [EvAddScalar (scalar_tag a_i) (scale a_ep_rew (episode_length cfg)) ep_i])).
  2:{ intros [a r] _. reflexivity. }
  simpl. f_equal. apply (flat_map_enumerate _ (fun i => i)).
Qed.

Lemma checkpoint_closed (run_num ep_i : Z) (s : state) :
  save_interval cfg <> 0 ->
  checkpoint cfg run_num ep_i s = (checkpoint_trace cfg run_num ep_i, Ok (tt, s)).
Proof.
  intros HI. unfold checkpoint, checkpoint_trace, saves_at, mod_.
  apply Z.eqb_neq in HI. unfold bind at 1. rewrite HI. unfold lift.
  destruct (_ <? _); reflexivity.
Qed.

Lemma concat_imap_seq {X} (h : nat -> list event) (xs : list X) (a : nat) :
  concat (imap (fun i _ => h (a + i)%nat) xs) = flat_map h (seq a (length xs)).
Proof.
  revert a. induction xs as [|x xs IH]; intros a; simpl; [reflexivity|].
  rewrite Nat.add_0_r. f_equal. rewrite <- IH.
  f_equal. apply imap_ext. intros i y _. simpl. f_equal. lia.
Qed.

Lemma episode_closed (run_num : Z) (j : nat) (ep_i : Z) :
  steps_per_update cfg <> 0 -> save_interval cfg <> 0 ->
  episode cfg run_num nworkers ep_i
    (state_after cfg (j * Z.to_nat (episode_length cfg)))
  = (episode_trace cfg run_num j ep_i,
     Ok (tt, state_after cfg (S j * Z.to_nat (episode_length cfg)))).
Proof.
  intros HS HI. unfold episode, episode_trace.
  set (L := Z.to_nat (episode_length cfg)).
  erewrite bind_ok; [| reflexivity |].
  2:{ erewrite bind_ok; [reflexivity | reflexivity |].
      erewrite bind_ok; [reflexivity | reflexivity |].
      erewrite bind_ok; [reflexivity | |].
      { apply (for_closed _ (fun i _ => step_trace cfg i) (state_after cfg)).
        intros i x _. apply rollout_step_closed. exact HS. }
      erewrite bind_ok; [reflexivity | apply log_rewards_closed |].
      apply checkpoint_closed. exact HI. }
  rewrite length_range. fold L.
  rewrite (concat_imap_seq (step_trace cfg)), length_range. fold L.
  replace (j * L + L)%nat with (S j * L)%nat by lia.
  reflexivity.
Qed.

Lemma range3_episodes :
  n_rollout_threads cfg <> 0 ->
  range3 0 (n_episodes cfg) (n_rollout_threads cfg) = Ok (episodes cfg).
Proof.
  intros HW. unfold range3, episodes. apply Z.eqb_neq in HW. rewrite HW.
  reflexivity.
Qed.

Lemma training_closed (run_num : Z) :
  n_rollout_threads cfg <> 0 -> steps_per_update cfg <> 0 ->
  save_interval cfg <> 0 ->
  training cfg run_num nworkers (initial_state cfg)
  = (training_trace cfg run_num,
     Ok (tt, state_after cfg (total_steps cfg))).
Proof.
  intros HW HS HI. unfold training, training_trace.
  unfold bind at 1. rewrite (range3_episodes HW). unfold lift.
  erewrite bind_ok; [reflexivity | | reflexivity].
  replace (initial_state cfg) with (state_after cfg (0 * Z.to_nat (episode_length cfg)))
    by reflexivity.
  apply (for_closed _ (episode_trace cfg run_num)
           (fun j => state_after cfg (j * Z.to_nat (episode_length cfg))) _ 0).
  intros j ep_i _. apply episode_closed; assumption.
Qed.

(** A run that finds a usable model directory and has non-zero stride and
    periods raises nothing, and its trace is the closed form. *)
Lemma run_closed (d : model_dir) (run_num : Z) :
  next_run_num d = Ok run_num ->
  n_rollout_threads cfg <> 0 -> steps_per_update cfg <> 0 ->
  save_interval cfg <> 0 ->
  run cfg d = (run_trace cfg run_num, Ok tt).
Proof.
  intros Hd HW HS HI. unfold run. rewrite Hd.
  fold nworkers. rewrite (training_closed _ HW HS HI). reflexivity.
Qed.

End DriverFacts.

(** ** Run numbering *)

Section RunNumbering.

Lemma max_list_of_N (n : N) (ns : list N) :
  max_list (Z.of_N n) (map Z.of_N ns) = Z.of_N (fold_left N.max ns n).
Proof.
  unfold max_list. revert n. induction ns as [|m ns IH]; intros n; simpl;
    [reflexivity|].
  rewrite <- N2Z.inj_max. apply IH.
Qed.

Lemma exst_run_nums_entries (entries : list (N + string)) :
  (forall name, In (inr name) entries -> startswith name "run" = false) ->
  exst_run_nums (map entry_name entries) = Ok (map Z.of_N (run_indices entries)).
Proof.
  unfold exst_run_nums.
  induction entries as [|[n|name] entries IH]; intros Hother; [reflexivity | |].
  - cbn [map entry_name run_indices omap list_omap].
    rewrite filter_cons_True by apply startswith_run_name.
    cbn [rmap]. rewrite split_run_name. cbn [index lookup list_lookup rbind].
    rewrite int_of_str. cbn [rbind].
    rewrite IH by (intros x Hx; apply Hother; right; exact Hx).
    reflexivity.
  - cbn [map entry_name run_indices omap list_omap].
    rewrite filter_cons_False.
    + apply IH. intros x Hx. apply Hother. right. exact Hx.
    + rewrite (Hother name) by (left; reflexivity). discriminate.
Qed.

(** C8 (as amended): in a model directory where every entry whose name
    starts with "run" is named run<N> for a decimal number N, the new run
    index is one greater than the maximum N, or 1 if there is no such
    entry; it is 1 as well when the model directory does not exist. *)
Theorem run_index_of_well_named_dir (present : bool) (entries : list (N + string)) :
  (forall name, In (inr name) entries -> startswith name "run" = false) ->
  next_run_num {| dir_exists := present; dir_entries := map entry_name entries |}
  = Ok (if present then spec_next_run_index (run_indices entries) else 1).
Proof.
  intros Hother. unfold next_run_num. cbn [dir_exists dir_entries].
  destruct present; [|reflexivity].
  rewrite (exst_run_nums_entries _ Hother). cbn [rbind].
  unfold spec_next_run_index.
  destruct (run_indices entries) as [|n ns]; [reflexivity|].
  cbn [map]. rewrite max_list_of_N. reflexivity.
Qed.

(** The run-index scenario: a directory holding run1 and run3 (and a file
    of another name) yields index 4. *)
Lemma run_index_of_well_named_dir_witness :
  next_run_num {| dir_exists := true;
                  dir_entries := ["run1"; "notes.txt"; "run3"] |} = Ok 4.
Proof.
  apply (run_index_of_well_named_dir true [inl 1%N; inr "notes.txt"; inl 3%N]).
  intros name [H | [H | [H | []]]]; inversion H. reflexivity.
Defined.

(** C8 (as stated) fails: with an entry run_old next to run1 the spec's
    index would be 2; the driver raises [ValueError] in [int('_old')]. *)
Lemma run_index_counterexample :
  next_run_num {| dir_exists := true; dir_entries := ["run1"; "run_old"] |}
  = Raise ValueError
  /\ next_run_num {| dir_exists := true; dir_entries := ["run1"; "run_old"] |}
     <> Ok (spec_next_run_index [1%N]).
Proof. split; [reflexivity | discriminate]. Qed.

Example run_index_empty_dir :
  next_run_num {| dir_exists := true; dir_entries := [] |} = Ok 1.
Proof. reflexivity. Qed.

Example run_index_second_invocation :
  next_run_num {| dir_exists := true; dir_entries := ["run1"] |} = Ok 2.
Proof. reflexivity. Qed.

End RunNumbering.

(** ** Observing the closed form *)

Section TraceFacts.
Context {env : Collaborators}.
Variable cfg : config.

Lemma omap_none {X Y} (f : X -> option Y) (l : list X) :
  Forall (fun x => f x = None) l -> omap f l = [].
Proof.
  induction 1 as [|x l Hx _ IH]; [reflexivity|].
  cbn [omap list_omap]. rewrite Hx. exact IH.
Qed.

Lemma omap_concat_imap {X Y Z'} (f : Y -> option Z') (g : nat -> X -> list Y)
    (l : list X) :
  omap f (concat (imap g l)) = concat (imap (fun i x => omap f (g i x)) l).
Proof.
  revert g. induction l as [|x l IH]; intros g; [reflexivity|].
  cbn [imap concat]. rewrite omap_app. f_equal. apply (IH (g ∘ S)).
Qed.

Lemma Forall_flat_map {X Y} (P : Y -> Prop) (g : X -> list Y) (l : list X) :
  (forall x, Forall P (g x)) -> Forall P (flat_map g l).
Proof.
  intros Hg. induction l as [|x l IH]; simpl; [constructor|].
  apply Forall_app. split; [apply Hg | exact IH].
Qed.

Lemma Forall_imap {X Y} (P : Y -> Prop) (g : nat -> X -> Y) (l : list X) :
  (forall i x, P (g i x)) -> Forall P (imap g l).
Proof.
  revert g. induction l as [|x l IH]; intros g Hg; [constructor|].
  cbn [imap]. constructor; [apply Hg|].
  apply (IH (g ∘ S)). intros i y. apply Hg.
Qed.

Lemma burst_trace_in_rollout (k : nat) :
  Forall (fun e => in_rollout e = true) (burst_trace cfg k).
Proof.
  unfold burst_trace. constructor; [reflexivity|].
  apply Forall_app. split; [| repeat constructor].
  apply Forall_flat_map. intros rep. repeat constructor.
Qed.

Lemma step_trace_in_rollout (k : nat) :
  Forall (fun e => in_rollout e = true) (step_trace cfg k).
Proof.
  unfold step_trace. apply Forall_app. split; [repeat constructor|].
  destruct (fires cfg k); [apply burst_trace_in_rollout | constructor].
Qed.

(** An observation that ignores the inner loop sees nothing in it. *)
Lemma omap_steps {Y} (f : event -> option Y) (ks : list nat) :
  (forall e, in_rollout e = true -> f e = None) ->
  omap f (flat_map (step_trace cfg) ks) = [].
Proof.
  intros Hf. apply omap_none. apply Forall_flat_map. intros k.
  eapply Forall_impl; [apply step_trace_in_rollout | exact Hf].
Qed.

Lemma omap_imap {X Y Z'} (f : Y -> option Z') (g : nat -> X -> Y)
    (h : nat -> X -> Z') (l : list X) :
  (forall i x, f (g i x) = Some (h i x)) -> omap f (imap g l) = imap h l.
Proof.
  revert g h. induction l as [|x l IH]; intros g h Hgh; [reflexivity|].
  cbn [imap omap list_omap]. rewrite Hgh. f_equal.
  apply (IH (g ∘ S) (h ∘ S)). intros i y. apply Hgh.
Qed.

Lemma saves_episode (run_num : Z) (j : nat) (ep_i : Z) :
  saves (episode_trace cfg run_num j ep_i)
  = if saves_at cfg ep_i
    then [incremental_path cfg run_num ep_i; model_path cfg run_num] else [].
Proof.
  unfold episode_trace, saves. rewrite !omap_app.
  rewrite omap_steps by (intros []; simpl; congruence).
  rewrite (omap_none _ (log_trace _ _ _)).
  2:{ unfold log_trace. generalize (get_average_rewards
        (buffer_after cfg (S j * Z.to_nat (episode_length cfg)))
        (episode_length cfg * n_rollout_threads cfg)).
      intros l. apply Forall_imap. reflexivity. }
  unfold checkpoint_trace. destruct (saves_at cfg ep_i); reflexivity.
Qed.

Lemma scalars_episode (run_num : Z) (j : nat) (ep_i : Z) :
  scalars (episode_trace cfg run_num j ep_i)
  = imap (fun a_i a_ep_rew =>
            (scalar_tag a_i, scale a_ep_rew (episode_length cfg), ep_i))
         (get_average_rewards
            (buffer_after cfg (S j * Z.to_nat (episode_length cfg)))
            (episode_length cfg * n_rollout_threads cfg)).
Proof.
  unfold episode_trace, scalars. rewrite !omap_app.
  rewrite omap_steps by (intros []; simpl; congruence).
  unfold log_trace.
  erewrite (omap_imap _ _ _ (get_average_rewards _ _)) by (intros; reflexivity).
  unfold checkpoint_trace.
  destruct (saves_at cfg ep_i); cbn [omap list_omap];
    rewrite app_nil_r; reflexivity.
Qed.

Lemma episode_trace_open (run_num : Z) (j : nat) (ep_i : Z) :
  Forall (fun e => is_close e = false) (episode_trace cfg run_num j ep_i).
Proof.
  unfold episode_trace. repeat (apply Forall_app; split).
  - repeat constructor.
  - apply Forall_flat_map. intros k.
    eapply Forall_impl; [apply step_trace_in_rollout|].
    intros []; simpl; congruence.
  - unfold log_trace. apply Forall_imap. reflexivity.
  - unfold checkpoint_trace. destruct (saves_at _ _); repeat constructor.
Qed.

Lemma Forall_concat_imap {X Y} (P : Y -> Prop) (g : nat -> X -> list Y)
    (l : list X) :
  (forall i x, Forall P (g i x)) -> Forall P (concat (imap g l)).
Proof.
  revert g. induction l as [|x l IH]; intros g Hg; [constructor|].
  cbn [imap concat]. apply Forall_app. split; [apply Hg|].
  apply (IH (g ∘ S)). intros i y. apply Hg.
Qed.

End TraceFacts.

(** ** The scheduling step *)

Section StepClaims.
Context {env : Collaborators}.
Variable cfg : config.

Let W := n_rollout_threads cfg.
Let nworkers := Z.to_nat (worker_count cfg).

Lemma count_app (p : event -> bool) (a b : list event) :
  count p (a ++ b) = (count p a + count p b)%nat.
Proof. unfold count. rewrite List.filter_app, length_app. reflexivity. Qed.

Lemma count_flat_map {X} (p : event -> bool) (g : X -> list event) (n : nat)
    (l : list X) :
  (forall x, count p (g x) = n) -> count p (flat_map g l) = (length l * n)%nat.
Proof.
  intros Hg. induction l as [|x l IH]; [reflexivity|].
  cbn [flat_map]. rewrite count_app, Hg, IH. simpl. reflexivity.
Qed.

Lemma count_burst_prep_training (k : nat) :
  count is_prep_training (burst_trace cfg k) = 1%nat.
Proof.
  unfold burst_trace.
  change (EvPrepTraining :: ?l) with ([EvPrepTraining] ++ l).
  rewrite !count_app, (count_flat_map _ _ 0) by reflexivity.
  cbn. lia.
Qed.

Lemma due_iff (s : state) :
  due cfg s = true
  <-> batch_size cfg <= Z.of_nat (len (replay_buffer s))
      /\ t s mod steps_per_update cfg < n_rollout_threads cfg.
Proof. unfold due. rewrite andb_true_iff, Z.leb_le, Z.ltb_lt. reflexivity. Qed.

(** C2: one coordinator step evaluates the trigger once, on the counter
    after its increment by W and on the buffer after the push: the step
    starts an update burst if and only if the buffer length is at least
    batch_size and (t mod steps_per_update) < W. *)
Theorem update_trigger_condition (s : state) :
  steps_per_update cfg <> 0 ->
  exists tr s',
    rollout_step cfg nworkers s = (tr, Ok (tt, s'))
    /\ t s' = t s + n_rollout_threads cfg
    /\ replay_buffer s'
       = push (replay_buffer s) (env_batch (steps_done s) nworkers)
    /\ (count is_prep_training tr <= 1)%nat
    /\ (count is_prep_training tr = 1%nat
        <-> batch_size cfg <= Z.of_nat (len (replay_buffer s'))
            /\ t s' mod steps_per_update cfg < n_rollout_threads cfg).
Proof.
  intros HS. eexists _, _. split; [apply (rollout_step_spec cfg s HS)|].
  split; [reflexivity|]. split; [reflexivity|].
  rewrite <- due_iff. rewrite count_app.
  destruct (due cfg (stepped cfg s)).
  - rewrite count_burst_prep_training. cbn. split; [lia|]. split; auto.
  - cbn. split; [lia|]. split; intros H; discriminate H.
Qed.

(** C5: whenever a step triggers, its trace is the rollout calls followed
    by prep_training, then num_updates repetitions of sample,
    update_critic, update_policies, update_all_targets in that order (the
    updates receiving the batch just sampled), then prep_rollouts; targets
    are synchronised once per sampled batch. *)
Theorem burst_structure (s : state) :
  steps_per_update cfg <> 0 ->
  In EvPrepTraining (rollout_step cfg nworkers s).1 ->
  let k := steps_done s in
  (rollout_step cfg nworkers s).1
  = [EvModelStep k; EvEnvStep (actions_at cfg k); EvPush k]
    ++ [EvPrepTraining]
    ++ flat_map (fun rep => [EvSample k rep (batch_size cfg);
                             EvUpdateCritic k rep;
                             EvUpdatePolicies k rep;
                             EvUpdateAllTargets])
                (range (num_updates cfg))
    ++ [EvPrepRollouts]
  /\ length (range (num_updates cfg)) = Z.to_nat (num_updates cfg)
  /\ count is_sample (rollout_step cfg nworkers s).1 = Z.to_nat (num_updates cfg)
  /\ count is_update_all_targets (rollout_step cfg nworkers s).1
     = Z.to_nat (num_updates cfg).
Proof.
  intros HS. unfold nworkers. rewrite (rollout_step_spec cfg s HS). cbn [fst].
  destruct (due cfg (stepped cfg s)).
  - intros _. split; [reflexivity|].
    split; [apply length_range|].
    unfold burst_trace.
    change (EvPrepTraining :: ?l) with ([EvPrepTraining] ++ l).
    rewrite !count_app, !(count_flat_map _ _ 1) by reflexivity.
    rewrite length_range. cbn. lia.
  - intros [H | [H | [H | []]]]; discriminate H.
Qed.

End StepClaims.

(** ** Whole runs: checkpoints, metrics, shutdown *)

Section RunClaims.
Context {env : Collaborators}.
Variable cfg : config.

Lemma concat_imap_const {X Y} (g : X -> list Y) (l : list X) :
  concat (imap (fun _ x => g x) l) = flat_map g l.
Proof.
  induction l as [|x l IH]; [reflexivity|].
  cbn [imap concat flat_map]. f_equal. exact IH.
Qed.

Lemma range3_inv (eps : list Z) :
  range3 0 (n_episodes cfg) (n_rollout_threads cfg) = Ok eps ->
  n_rollout_threads cfg <> 0 /\ eps = episodes cfg.
Proof.
  unfold range3. destruct (n_rollout_threads cfg =? 0) eqn:E; [discriminate|].
  apply Z.eqb_neq in E. intros [= <-]. split; [exact E | reflexivity].
Qed.

(** C6 (as amended): the snapshots of a run are, for every value ep_i of
    the episode loop with ep_i mod save_interval < W, an incremental
    snapshot at run<N>/incremental/model_ep<ep_i + 1>.pt (the suffix is
    the episode index plus one, not the step counter) followed by the
    canonical run<N>/model.pt, and one more canonical snapshot at the end. *)
Theorem incremental_checkpoints (d : model_dir) (run_num : Z) (eps : list Z) :
  next_run_num d = Ok run_num ->
  range3 0 (n_episodes cfg) (n_rollout_threads cfg) = Ok eps ->
  steps_per_update cfg <> 0 -> save_interval cfg <> 0 ->
  saves (run cfg d).1
  = flat_map
      (fun ep_i =>
         if ep_i mod save_interval cfg <? n_rollout_threads cfg then
           [ ["models"; env_id cfg; model_name cfg; "run" +:+ str run_num;
              "incremental"; "model_ep" +:+ str (ep_i + 1) +:+ ".pt"];
             ["models"; env_id cfg; model_name cfg; "run" +:+ str run_num;
              "model.pt"] ]
         else [])
      eps
    ++ [ ["models"; env_id cfg; model_name cfg; "run" +:+ str run_num;
          "model.pt"] ].
Proof.
  intros Hd Heps HS HI. apply range3_inv in Heps as [HW ->].
  rewrite (run_closed cfg d run_num Hd HW HS HI). cbn [fst].
  unfold run_trace, training_trace, saves. rewrite !omap_app.
  rewrite omap_concat_imap.
  rewrite (imap_ext _ (fun _ ep_i =>
     if saves_at cfg ep_i
     then [incremental_path cfg run_num ep_i; model_path cfg run_num] else [])).
  2:{ intros j ep_i _. apply saves_episode. }
  rewrite concat_imap_const. reflexivity.
Qed.

(** C7 (as amended): a run that raises nothing ends with the canonical
    snapshot, then the closing of the environments, the export of the
    scalars and the closing of the metrics writer; nothing is closed
    before that snapshot. *)
Theorem final_snapshot_then_close (d : model_dir) (run_num : Z) :
  next_run_num d = Ok run_num ->
  n_rollout_threads cfg <> 0 -> steps_per_update cfg <> 0 ->
  save_interval cfg <> 0 ->
  exists before,
    run cfg d
    = (before ++ [EvSave (RUN_DIR cfg run_num ++ ["model.pt"]); EvEnvClose;
                  EvExportScalars (LOG_DIR cfg run_num ++ ["summary.json"]);
                  EvLoggerClose],
       Ok tt)
    /\ Forall (fun e => is_close e = false) before.
Proof.
  intros Hd HW HS HI. rewrite (run_closed cfg d run_num Hd HW HS HI).
  unfold run_trace, training_trace. rewrite app_assoc.
  eexists. split; [reflexivity|].
  apply Forall_app. split; [repeat constructor|].
  apply Forall_concat_imap. intros j ep_i. apply episode_trace_open.
Qed.

(** C9 (as amended): the scalars of a run are, for the j-th episode with
    loop value ep_i and for every agent a, the windowed mean reward of
    agent a over the last episode_length * W entries of the buffer at the
    end of that episode, multiplied by episode_length, under the tag
    agent<a>/mean_episode_rewards and the step ep_i. *)
Theorem episode_metrics (d : model_dir) (run_num : Z) (eps : list Z) :
  next_run_num d = Ok run_num ->
  range3 0 (n_episodes cfg) (n_rollout_threads cfg) = Ok eps ->
  steps_per_update cfg <> 0 -> save_interval cfg <> 0 ->
  scalars (run cfg d).1
  = concat (imap
      (fun j ep_i =>
         imap (fun a mean_reward =>
                 ("agent" +:+ str (Z.of_nat a) +:+ "/mean_episode_rewards",
                  scale mean_reward (episode_length cfg), ep_i))
              (get_average_rewards
                 (buffer_after cfg (S j * Z.to_nat (episode_length cfg)))
                 (episode_length cfg * n_rollout_threads cfg)))
      eps).
Proof.
  intros Hd Heps HS HI. apply range3_inv in Heps as [HW ->].
  rewrite (run_closed cfg d run_num Hd HW HS HI). cbn [fst].
  unfold run_trace, training_trace, scalars. rewrite !omap_app.
  rewrite omap_concat_imap. cbn [omap list_omap startup make_parallel_env].
  rewrite app_nil_r. cbn [app]. f_equal.
  apply imap_ext. intros j ep_i _. apply scalars_episode.
Qed.

End RunClaims.

(** ** When the trigger fires *)

Section FireTimes.
Context {env : Collaborators}.
Variable cfg : config.

Let W := n_rollout_threads cfg.
Let L := Z.to_nat (episode_length cfg).

Lemma fire_times_app (t0 : Z) (a b : list event) :
  fire_times W t0 (a ++ b)
  = fire_times W t0 a
    ++ fire_times W (t0 + W * Z.of_nat (count is_env_step a)) b.
Proof.
  revert t0. induction a as [|e a IH]; intros t0.
  - cbn. f_equal. lia.
  - destruct e; cbn [app fire_times]; rewrite IH;
      unfold count; cbn [List.filter is_env_step length];
      try reflexivity.
    rewrite Nat2Z.inj_succ. f_equal. f_equal. lia.
Qed.

Lemma length_fire_times (t0 : Z) (tr : list event) :
  length (fire_times W t0 tr) = count is_prep_training tr.
Proof.
  revert t0. induction tr as [|e tr IH]; intros t0; [reflexivity|].
  destruct e; cbn; rewrite ?IH; reflexivity.
Qed.

(** Events that neither advance the counter nor start a burst. *)
Lemma fire_times_quiet (t0 : Z) (tr : list event) :
  Forall (fun e => is_env_step e = false /\ is_prep_training e = false) tr ->
  fire_times W t0 tr = [] /\ count is_env_step tr = 0%nat.
Proof.
  induction 1 as [|e tr [He1 He2] _ [IH1 IH2]]; [split; reflexivity|].
  destruct e; try discriminate; cbn; auto.
Qed.

Lemma burst_tail_quiet (k : nat) :
  Forall (fun e => is_env_step e = false /\ is_prep_training e = false)
         (flat_map (repetition cfg k) (range (num_updates cfg)) ++ [EvPrepRollouts]).
Proof.
  apply Forall_app. split; [| repeat constructor].
  apply Forall_flat_map. intros rep. repeat constructor.
Qed.

Lemma fire_times_step (t0 : Z) (k : nat) :
  fire_times W t0 (step_trace cfg k) = (if fires cfg k then [t0 + W] else [])
  /\ count is_env_step (step_trace cfg k) = 1%nat.
Proof.
  unfold step_trace, burst_trace. destruct (fires cfg k); [|split; reflexivity].
  destruct (fire_times_quiet (t0 + W) _ (burst_tail_quiet k)) as [H1 H2].
  split.
  - cbn [app fire_times]. rewrite H1. reflexivity.
  - rewrite count_app. change (EvPrepTraining :: ?l) with ([EvPrepTraining] ++ l).
    rewrite count_app, H2. reflexivity.
Qed.

Lemma fire_times_steps (a n : nat) (rest : list event) :
  fire_times W (Z.of_nat a * W) (flat_map (step_trace cfg) (seq a n) ++ rest)
  = fired cfg a n ++ fire_times W (Z.of_nat (a + n) * W) rest.
Proof.
  unfold fired. revert a. induction n as [|n IH]; intros a.
  - cbn. rewrite Nat.add_0_r. reflexivity.
  - cbn [seq flat_map]. rewrite <- app_assoc, fire_times_app.
    destruct (fire_times_step (Z.of_nat a * W) a) as [-> ->].
    replace (Z.of_nat a * W + W * Z.of_nat 1) with (Z.of_nat (S a) * W) by lia.
    rewrite IH. replace (S a + n)%nat with (a + S n)%nat by lia.
    cbn [List.filter]. destruct (fires cfg a); cbn [map app]; [|reflexivity].
    f_equal. lia.
Qed.

Lemma fired_app (a n m : nat) :
  fired cfg a (n + m) = fired cfg a n ++ fired cfg (a + n) m.
Proof. unfold fired. rewrite seq_app, List.filter_app, map_app. reflexivity. Qed.

Lemma fire_times_episode (run_num : Z) (j : nat) (ep_i : Z) (rest : list event) :
  fire_times W (Z.of_nat (j * L) * W) (episode_trace cfg run_num j ep_i ++ rest)
  = fired cfg (j * L) L ++ fire_times W (Z.of_nat (S j * L) * W) rest.
Proof.
  unfold episode_trace. fold L. rewrite <- !app_assoc.
  cbn [app fire_times]. rewrite fire_times_steps.
  replace (j * L + L)%nat with (S j * L)%nat by lia. f_equal.
  rewrite app_assoc, fire_times_app.
  assert (Hq : Forall (fun e => is_env_step e = false /\ is_prep_training e = false)
                 (log_trace cfg (buffer_after cfg (S j * L)) ep_i
                  ++ checkpoint_trace cfg run_num ep_i)).
  { apply Forall_app. split.
    - unfold log_trace. apply Forall_imap. intros; split; reflexivity.
    - unfold checkpoint_trace. destruct (saves_at _ _); repeat constructor. }
  destruct (fire_times_quiet (Z.of_nat (S j * L) * W) _ Hq) as [-> ->].
  cbn [app]. f_equal. lia.
Qed.

Lemma fire_times_episodes (run_num : Z) (j0 : nat) (eps : list Z)
    (rest : list event) :
  fire_times W (Z.of_nat (j0 * L) * W)
    (concat (imap (fun i => episode_trace cfg run_num (j0 + i)) eps) ++ rest)
  = fired cfg (j0 * L) (length eps * L)
    ++ fire_times W (Z.of_nat ((j0 + length eps) * L) * W) rest.
Proof.
  revert j0. induction eps as [|ep_i eps IH]; intros j0.
  - cbn. rewrite Nat.add_0_r. reflexivity.
  - cbn [imap concat length]. rewrite <- app_assoc.
    rewrite Nat.add_0_r, fire_times_episode.
    rewrite (imap_ext _ (fun i => episode_trace cfg run_num (S j0 + i))).
    2:{ intros i x _. unfold compose. f_equal. lia. }
    rewrite IH. rewrite app_assoc. f_equal.
    + replace (S (length eps) * L)%nat with (L + length eps * L)%nat by lia.
      rewrite fired_app. f_equal. f_equal. lia.
    + f_equal. f_equal. lia.
Qed.

(** The bursts of a whole run start at the counts [(k+1) * W] of the steps
    [k] that fire. *)
Lemma fire_times_run (run_num : Z) :
  fire_times W 0 (run_trace cfg run_num) = fired cfg 0 (total_steps cfg).
Proof.
  unfold run_trace, training_trace. cbn [startup app make_parallel_env fire_times].
  pose proof (fire_times_episodes run_num 0 (episodes cfg)
                (shutdown_trace cfg run_num)) as H.
  change (fire_times W 0
            (concat (imap (episode_trace cfg run_num) (episodes cfg))
             ++ shutdown_trace cfg run_num)
          = fired cfg 0 (length (episodes cfg) * L)
            ++ fire_times W (Z.of_nat (length (episodes cfg) * L) * W)
                 (shutdown_trace cfg run_num)) in H.
  rewrite H. cbn [shutdown_trace fire_times]. rewrite app_nil_r. reflexivity.
Qed.

End FireTimes.

(** ** Boundaries of steps_per_update *)

Section Boundaries.

(** For a stride [W] of at most [S], the remainder test says that exactly
    one multiple of [S] lies in the interval (t - W, t]. *)
Lemma remainder_test_crossing (S W t : Z) :
  0 < W <= S ->
  (t mod S < W <-> t / S = (t - W) / S + 1)
  /\ (W <= t mod S <-> t / S = (t - W) / S).
Proof.
  intros HW.
  pose proof (Z.div_mod t S ltac:(lia)) as Ht.
  pose proof (Z.mod_pos_bound t S ltac:(lia)) as Hr.
  destruct (Z_lt_ge_dec (t mod S) W) as [Hlt | Hge].
  - assert (Hq : t / S - 1 = (t - W) / S).
    { apply (Z.div_unique (t - W) S (t / S - 1) (t mod S - W + S)); lia. }
    split; split; intros; lia.
  - assert (Hq : t / S = (t - W) / S).
    { apply (Z.div_unique (t - W) S (t / S) (t mod S - W)); lia. }
    split; split; intros; lia.
Qed.

End Boundaries.

Section FireClaims.
Context {env : Collaborators}.
Variable cfg : config.

Lemma in_fired (a n : nat) (t : Z) :
  In t (fired cfg a n)
  <-> exists k, (a <= k < a + n)%nat /\ fires cfg k = true
                /\ t = Z.of_nat (S k) * n_rollout_threads cfg.
Proof.
  unfold fired. rewrite in_map_iff. split.
  - intros (k & <- & Hk). apply List.filter_In in Hk as [Hk Hf].
    apply in_seq in Hk. exists k. auto.
  - intros (k & Hk & Hf & ->). exists k. split; [reflexivity|].
    apply List.filter_In. split; [apply in_seq; exact Hk | exact Hf].
Qed.

Lemma fires_ready (k : nat) :
  batch_size cfg <= 0 ->
  fires cfg k
  = (Z.of_nat (S k) * n_rollout_threads cfg mod steps_per_update cfg
     <? n_rollout_threads cfg).
Proof.
  intros Hb. unfold fires.
  replace (batch_size cfg <=? _) with true; [reflexivity|].
  symmetry. apply Z.leb_le. lia.
Qed.

Lemma length_fired_ready (n : nat) :
  batch_size cfg <= 0 ->
  0 < n_rollout_threads cfg <= steps_per_update cfg ->
  Z.of_nat (length (fired cfg 0 n))
  = Z.of_nat n * n_rollout_threads cfg / steps_per_update cfg.
Proof.
  intros Hb HW. induction n as [|n IH]; [reflexivity|].
  replace (S n) with (n + 1)%nat at 1 by lia.
  rewrite fired_app, length_app, Nat2Z.inj_add, IH.
  unfold fired. cbn [seq List.filter Nat.add]. rewrite (fires_ready _ Hb).
  destruct (remainder_test_crossing (steps_per_update cfg)
              (n_rollout_threads cfg)
              (Z.of_nat (S n) * n_rollout_threads cfg) HW) as [H1 H2].
  replace (Z.of_nat (S n) * n_rollout_threads cfg - n_rollout_threads cfg)
    with (Z.of_nat n * n_rollout_threads cfg) in H1, H2 by lia.
  destruct (_ <? _) eqn:E.
  - apply Z.ltb_lt in E. apply H1 in E. cbn [map length]. lia.
  - apply Z.ltb_ge in E. apply H2 in E. cbn [map length]. lia.
Qed.

(** C3 (as amended): with the buffer always ready and a stride W with
    0 < W <= steps_per_update, a step fires exactly when it crosses a
    boundary of steps_per_update, no step crosses more than one boundary,
    and the number of bursts of a run equals the number of boundaries in
    (0, t] for the final step count t. *)
Theorem trigger_once_per_boundary (d : model_dir) (run_num : Z) (eps : list Z) :
  next_run_num d = Ok run_num ->
  range3 0 (n_episodes cfg) (n_rollout_threads cfg) = Ok eps ->
  0 < n_rollout_threads cfg <= steps_per_update cfg ->
  batch_size cfg <= 0 ->
  save_interval cfg <> 0 ->
  let W := n_rollout_threads cfg in
  let S := steps_per_update cfg in
  let N := Z.of_nat (length eps * Z.to_nat (episode_length cfg)) in
  let tr := (run cfg d).1 in
  (forall t, In t (fire_times W 0 tr)
             <-> (exists i, 1 <= i <= N /\ t = i * W)
                 /\ t / S = (t - W) / S + 1)
  /\ (forall t, (t - W) / S <= t / S <= (t - W) / S + 1)
  /\ Z.of_nat (count is_prep_training tr) = N * W / S.
Proof.
  intros Hd Heps HW Hb HI. cbv zeta.
  apply range3_inv in Heps as [HW0 ->].
  assert (HS : steps_per_update cfg <> 0) by lia.
  rewrite (run_closed cfg d run_num Hd HW0 HS HI). cbn [fst].
  fold (total_steps cfg).
  pose proof (fun t => remainder_test_crossing _ _ t HW) as Hx.
  split; [intros x; split | split; [intros x |]].
  - rewrite fire_times_run, in_fired.
    intros (k & Hk & Hf & ->). split.
    + exists (Z.of_nat (S k)). split; [lia | reflexivity].
    + rewrite (fires_ready _ Hb) in Hf. apply Z.ltb_lt in Hf.
      apply Hx. exact Hf.
  - intros [(i & Hi & ->) Hcross].
    rewrite fire_times_run, in_fired. exists (Z.to_nat (i - 1)).
    replace (Z.of_nat (S (Z.to_nat (i - 1)))) with i by lia.
    split; [lia|]. split; [|reflexivity].
    rewrite (fires_ready _ Hb).
    replace (Z.of_nat (S (Z.to_nat (i - 1)))) with i by lia.
    apply Z.ltb_lt. apply Hx. exact Hcross.
  - destruct (Hx x) as [H1 H2].
    destruct (Z_lt_ge_dec (x mod steps_per_update cfg) (n_rollout_threads cfg))
      as [l | g]; [apply H1 in l | apply Z.ge_le, H2 in g]; lia.
  - rewrite <- (length_fire_times cfg 0), fire_times_run.
    apply (length_fired_ready _ Hb HW).
Qed.

End FireClaims.

(** ** The ring buffer *)

Section RingFacts.
Context {A : Type}.
Import ReplayBuffer.

Implicit Types (b : ReplayBuffer.t A) (x : A).

Lemma ring_wf_new (C : nat) : (0 < C)%nat -> ring_wf (@new A C).
Proof.
  intros HC. unfold ring_wf, new. cbn. rewrite length_replicate. lia.
Qed.

Lemma max_steps_push_one b x : max_steps (push_one b x) = max_steps b.
Proof. reflexivity. Qed.

Lemma ring_wf_push_one b x : ring_wf b -> ring_wf (push_one b x).
Proof.
  intros (Hlen & HC & Hc & Hf & Hcf). unfold ring_wf, push_one. cbn.
  rewrite length_insert.
  pose proof (Nat.mod_upper_bound (curr_i b + 1) (max_steps b) ltac:(lia)).
  repeat split; try lia.
  intros Hlt. rewrite Hcf by lia.
  rewrite Nat.mod_small by lia. lia.
Qed.

Lemma length_ordered b : ring_wf b -> length (ordered b) = filled_i b.
Proof.
  intros (Hlen & HC & Hc & Hf & Hcf). unfold ordered.
  destruct (filled_i b <? max_steps b)%nat eqn:E.
  - apply Nat.ltb_lt in E. rewrite length_take. lia.
  - apply Nat.ltb_ge in E. rewrite length_app, length_drop, length_take. lia.
Qed.

(** One push appends at the young end and, when the ring is full, drops
    the oldest entry. *)
Lemma ordered_push_one b x :
  ring_wf b ->
  ordered (push_one b x)
  = if (filled_i b <? max_steps b)%nat then ordered b ++ [Some x]
    else drop 1 (ordered b) ++ [Some x].
Proof.
  intros (Hlen & HC & Hc & Hf & Hcf). unfold ordered, push_one.
  cbn [slots curr_i filled_i max_steps].
  set (C := max_steps b) in *. set (sl := slots b) in *.
  set (c := curr_i b) in *. set (f := filled_i b) in *.
  assert (Hins : <[c:=Some x]> sl = take c sl ++ Some x :: drop (S c) sl).
  { apply insert_take_drop. lia. }
  destruct (f <? C)%nat eqn:E.
  - apply Nat.ltb_lt in E. rewrite (Hcf E) in *.
    replace (Nat.min (f + 1) C)%nat with (f + 1)%nat by lia.
    destruct (f + 1 <? C)%nat eqn:E'.
    + rewrite Hins. rewrite take_app, length_take_le by lia.
      rewrite take_take. replace (Nat.min (f + 1) f)%nat with f by lia.
      replace (f + 1 - f)%nat with 1%nat by lia. reflexivity.
    + apply Nat.ltb_ge in E'. assert (f + 1 = C)%nat as Heq by lia.
      rewrite Heq, Nat.Div0.mod_same. rewrite drop_0, take_0, app_nil_r.
      rewrite Hins. rewrite (drop_ge sl (S f)) by lia. reflexivity.
  - apply Nat.ltb_ge in E. assert (f = C) as Heq by lia.
    replace (Nat.min (f + 1) C)%nat with C by lia.
    rewrite Nat.ltb_irrefl.
    rewrite drop_app_le by (rewrite length_drop; lia).
    rewrite drop_drop.
    destruct (Nat.eq_dec (c + 1)%nat C) as [Hlast | Hmid].
    + rewrite Hlast, Nat.Div0.mod_same. rewrite drop_0, take_0, app_nil_r.
      rewrite Hins. rewrite !(drop_ge sl) by lia. reflexivity.
    + rewrite Nat.mod_small by lia. rewrite Hins.
      rewrite drop_app_ge by (rewrite length_take; lia).
      rewrite length_take_le by lia.
      replace (c + 1 - c)%nat with 1%nat by lia. cbn [drop].
      rewrite take_app, length_take_le by lia.
      rewrite take_take. replace (Nat.min (c + 1) c)%nat with c by lia.
      replace (c + 1 - c)%nat with 1%nat by lia. cbn [take].
      replace (c + 1)%nat with (S c) by lia. rewrite <- app_assoc. reflexivity.
Qed.

Lemma lastn_app_short {X} (n : nat) (l k : list X) :
  lastn n (lastn n l ++ k) = lastn n (l ++ k).
Proof.
  unfold lastn. rewrite !length_app, length_drop.
  destruct (Nat.le_gt_cases (length l) n) as [Hle | Hgt].
  - replace (length l - n)%nat with 0%nat by lia. rewrite drop_0.
    f_equal. lia.
  - rewrite !drop_app, drop_drop, length_drop. f_equal; f_equal; lia.
Qed.

Lemma ordered_push_one_lastn b x :
  ring_wf b ->
  ordered (push_one b x) = lastn (max_steps b) (ordered b ++ [Some x]).
Proof.
  intros Hwf. rewrite (ordered_push_one _ _ Hwf).
  pose proof (length_ordered _ Hwf) as Hlen.
  destruct Hwf as (_ & HC & _ & Hf & _).
  unfold lastn. rewrite length_app, Hlen. cbn [length].
  destruct (filled_i b <? max_steps b)%nat eqn:E.
  - apply Nat.ltb_lt in E.
    replace (filled_i b + 1 - max_steps b)%nat with 0%nat by lia.
    reflexivity.
  - apply Nat.ltb_ge in E.
    replace (filled_i b + 1 - max_steps b)%nat with 1%nat by lia.
    rewrite drop_app_le by lia. reflexivity.
Qed.

Lemma push_entries b (xs : list A) :
  ring_wf b ->
  ring_wf (fold_left push_one xs b)
  /\ max_steps (fold_left push_one xs b) = max_steps b
  /\ ordered (fold_left push_one xs b)
     = lastn (max_steps b) (ordered b ++ map Some xs).
Proof.
  revert b. induction xs as [|x xs IH]; intros b Hwf.
  - cbn. rewrite app_nil_r. split; [exact Hwf|]. split; [reflexivity|].
    unfold lastn. rewrite (length_ordered _ Hwf).
    destruct Hwf as (_ & _ & _ & Hf & _).
    replace (filled_i b - max_steps b)%nat with 0%nat by lia. reflexivity.
  - cbn [fold_left map].
    destruct (IH (push_one b x) (ring_wf_push_one _ _ Hwf)) as (H1 & H2 & H3).
    split; [exact H1|]. split; [exact H2|].
    rewrite H3, max_steps_push_one, (ordered_push_one_lastn _ _ Hwf).
    rewrite lastn_app_short, <- app_assoc. reflexivity.
Qed.

Lemma push_batches b (batches : list (list A)) :
  fold_left push batches b = fold_left push_one (concat batches) b.
Proof.
  revert b. induction batches as [|batch batches IH]; intros b; [reflexivity|].
  cbn [fold_left concat]. rewrite fold_left_app. apply IH.
Qed.

Lemma stored_lastn (n : nat) (l : list A) :
  omap id (lastn n (map Some l)) = lastn n l.
Proof.
  unfold lastn. rewrite length_map.
  change (map Some l) with (Some <$> l). rewrite <- fmap_drop.
  generalize (drop (length l - n) l). intros k.
  induction k as [|y k IH]; [reflexivity|].
  cbn. f_equal. exact IH.
Qed.

End RingFacts.

Section RingClaim.
Context {A : Type}.
Import ReplayBuffer.

(** C1: starting from an empty buffer of capacity C > 0, after any
    sequence of pushes (and so after each of its prefixes) len() is at most
    C; it is the number of entries pushed, capped at C; and the stored
    entries are, oldest first, exactly the last C entries pushed.  When
    more than C entries were pushed, len() is C and the oldest
    (total - C) entries are the ones overwritten. *)
Theorem ring_invariant (C : nat) (batches : list (list A)) :
  (0 < C)%nat ->
  let pushed := concat batches in
  let b := fold_left push batches (new C) in
  (forall n, (len (fold_left push (take n batches) (new C)) <= C)%nat)
  /\ len b = Nat.min (length pushed) C
  /\ stored b = lastn C pushed
  /\ ((C < length pushed)%nat ->
      len b = C /\ stored b = drop (length pushed - C) pushed).
Proof.
  intros HC pushed b.
  assert (Hall : forall bs : list (list A),
            ring_wf (fold_left push bs (new C))
            /\ ordered (fold_left push bs (new C))
               = lastn C (map Some (concat bs))).
  { intros bs. rewrite push_batches.
    destruct (push_entries (new C) (concat bs) (ring_wf_new C HC))
      as (Hwf & _ & Hord).
    split; [exact Hwf|]. rewrite Hord. unfold ordered, new.
    cbn [filled_i max_steps slots curr_i].
    destruct (0 <? C)%nat eqn:E; [reflexivity|].
    apply Nat.ltb_ge in E. lia. }
  assert (Hlen : len b = Nat.min (length pushed) C).
  { destruct (Hall batches) as [Hwf Hord]. fold b in Hwf, Hord.
    unfold len. rewrite <- (length_ordered _ Hwf), Hord.
    unfold lastn. rewrite length_drop, length_map. fold pushed. lia. }
  assert (Hst : stored b = lastn C pushed).
  { destruct (Hall batches) as [_ Hord]. fold b in Hord.
    unfold stored. rewrite Hord. apply stored_lastn. }
  split; [|split; [exact Hlen | split; [exact Hst|]]].
  - intros n. destruct (Hall (take n batches)) as [(_ & _ & _ & Hf & _) _].
    rewrite push_batches in Hf |- *.
    destruct (push_entries (new C) (concat (take n batches)) (ring_wf_new C HC))
      as (_ & Hmax & _).
    rewrite Hmax in Hf. exact Hf.
  - intros Hover. split; [lia|]. rewrite Hst. reflexivity.
Qed.

End RingClaim.

(** The tagging test of the spec: entries tagged with their insertion
    ids, pushed two at a time into a buffer of capacity 50. *)
Example ring_ids_survive :
  let batches := map (fun i => [(2 * i)%nat; (2 * i + 1)%nat]) (seq 0 30) in
  ReplayBuffer.len (fold_left ReplayBuffer.push (take 15 batches) (ReplayBuffer.new 50))
  = 30%nat
  /\ ReplayBuffer.len (fold_left ReplayBuffer.push batches (ReplayBuffer.new 50))
     = 50%nat
  /\ ReplayBuffer.stored (fold_left ReplayBuffer.push batches (ReplayBuffer.new 50))
     = seq 10 50.
Proof. vm_compute. repeat split. Qed.

Lemma ring_invariant_witness :
  let batches := [[1%nat; 2%nat]; [3%nat; 4%nat]; [5%nat; 6%nat]] in
  let b := fold_left ReplayBuffer.push batches (ReplayBuffer.new 4) in
  (forall n, (ReplayBuffer.len
                (fold_left ReplayBuffer.push (take n batches) (ReplayBuffer.new 4))
              <= 4)%nat)
  /\ ReplayBuffer.len b = 4%nat
  /\ ReplayBuffer.stored b = [3%nat; 4%nat; 5%nat; 6%nat]
  /\ ((4 < 6)%nat ->
      ReplayBuffer.len b = 4%nat
      /\ ReplayBuffer.stored b = [3%nat; 4%nat; 5%nat; 6%nat]).
Proof.
  apply (ring_invariant 4 [[1%nat; 2%nat]; [3%nat; 4%nat]; [5%nat; 6%nat]]).
  lia.
Defined.

(** ** The scenario steps_per_update = 100, W = 12 *)

Section Scenario.
Context {env : Collaborators}.
Variable cfg : config.

Lemma first_multiple_at_boundary (t : Z) :
  12 <= t ->
  (t mod 100 < 12 <-> exists n, 1 <= n /\ 100 * n <= t /\ t - 12 < 100 * n).
Proof.
  intros Ht.
  pose proof (Z.div_mod t 100 ltac:(lia)) as Hdm.
  pose proof (Z.mod_pos_bound t 100 ltac:(lia)) as Hr.
  split.
  - intros Hlt. exists (t / 100). lia.
  - intros (n & Hn & Hlo & Hhi).
    assert (t / 100 = n) as Hq.
    { symmetry. apply (Z.div_unique t 100 n (t - 100 * n)); lia. }
    lia.
Qed.

(** C4 (as amended): with steps_per_update = 100, W = 12 and
    batch_size = 0, the bursts of a run start exactly at the step counts
    t = 12 * i (i = 1 .. number of steps; the counter is tested after its
    increment, so never at 0) that are the first multiple of 12 at or
    after a boundary 100 * n with n >= 1: 108, 204, 300, 408, ... and not
    at 12, 24, ..., 96. *)
Theorem trigger_times_scenario (d : model_dir) (run_num : Z) (eps : list Z) :
  next_run_num d = Ok run_num ->
  range3 0 (n_episodes cfg) (n_rollout_threads cfg) = Ok eps ->
  steps_per_update cfg = 100 ->
  n_rollout_threads cfg = 12 ->
  batch_size cfg = 0 ->
  save_interval cfg <> 0 ->
  let N := Z.of_nat (length eps * Z.to_nat (episode_length cfg)) in
  forall t,
    In t (fire_times (n_rollout_threads cfg) 0 (run cfg d).1)
    <-> (exists i, 1 <= i <= N /\ t = 12 * i)
        /\ (exists n, 1 <= n /\ 100 * n <= t /\ t - 12 < 100 * n).
Proof.
  intros Hd Heps HS HW Hb HI N t0. subst N.
  apply range3_inv in Heps as [HW0 ->].
  assert (HS0 : steps_per_update cfg <> 0) by lia.
  rewrite (run_closed cfg d run_num Hd HW0 HS0 HI). cbn [fst].
  fold (total_steps cfg). rewrite fire_times_run, in_fired.
  assert (Hb' : batch_size cfg <= 0) by lia.
  split.
  - intros (k & Hk & Hf & ->). rewrite (fires_ready _ _ Hb'), HS, HW in Hf.
    apply Z.ltb_lt in Hf. rewrite HW. split.
    + exists (Z.of_nat (S k)). lia.
    + apply first_multiple_at_boundary; [lia | exact Hf].
  - intros [(i & Hi & ->) Hn]. exists (Z.to_nat (i - 1)).
    split; [lia|]. rewrite (fires_ready _ _ Hb'), HS, HW.
    replace (Z.of_nat (S (Z.to_nat (i - 1)))) with i by lia.
    split; [|lia]. apply Z.ltb_lt.
    replace (i * 12) with (12 * i) by lia.
    apply first_multiple_at_boundary; [lia | exact Hn].
Qed.

End Scenario.

(** ** The claims on concrete runs *)

Section Demo.
#[local] Existing Instance demo_world.

(** The closed form agrees with the driver on the demo run. *)
Example run_trace_demo :
  run demo_config demo_dir = (run_trace demo_config 4, Ok tt).
Proof. vm_compute. reflexivity. Qed.

Lemma update_trigger_condition_witness :
  exists tr s',
    rollout_step demo_config 2 (state_after demo_config 1) = (tr, Ok (tt, s'))
    /\ t s' = 2 + 2
    /\ replay_buffer s'
       = push (replay_buffer (state_after demo_config 1)) (env_batch 1%nat 2%nat)
    /\ (count is_prep_training tr <= 1)%nat
    /\ (count is_prep_training tr = 1%nat
        <-> 4 <= Z.of_nat (len (replay_buffer s')) /\ t s' mod 4 < 2).
Proof.
  apply (update_trigger_condition demo_config (state_after demo_config 1)).
  vm_compute. discriminate.
Defined.

Lemma burst_structure_witness :
  count is_update_all_targets
    (rollout_step demo_config 2 (state_after demo_config 1)).1 = 2%nat.
Proof.
  apply (burst_structure demo_config (state_after demo_config 1)).
  - vm_compute. discriminate.
  - vm_compute. do 3 right. left. reflexivity.
Defined.

Lemma incremental_checkpoints_witness :
  saves (run demo_config demo_dir).1
  = [ ["models"; "fullobs_collect_treasure"; "test"; "run4"; "incremental";
       "model_ep1.pt"];
      ["models"; "fullobs_collect_treasure"; "test"; "run4"; "model.pt"];
      ["models"; "fullobs_collect_treasure"; "test"; "run4"; "model.pt"] ].
Proof.
  apply (incremental_checkpoints demo_config demo_dir 4 [0; 2]).
  - reflexivity.
  - reflexivity.
  - vm_compute. discriminate.
  - vm_compute. discriminate.
Defined.

Lemma final_snapshot_then_close_witness :
  exists before,
    run demo_config demo_dir
    = (before ++ [EvSave (RUN_DIR demo_config 4 ++ ["model.pt"]); EvEnvClose;
                  EvExportScalars (LOG_DIR demo_config 4 ++ ["summary.json"]);
                  EvLoggerClose],
       Ok tt)
    /\ Forall (fun e => is_close e = false) before.
Proof.
  apply (final_snapshot_then_close demo_config demo_dir 4).
  - reflexivity.
  - vm_compute. discriminate.
  - vm_compute. discriminate.
  - vm_compute. discriminate.
Defined.

Lemma episode_metrics_witness :
  scalars (run demo_config demo_dir).1
  = [ ("agent0/mean_episode_rewards", 6%Q, 0);
      ("agent1/mean_episode_rewards", 9%Q, 0);
      ("agent0/mean_episode_rewards", 6%Q, 2);
      ("agent1/mean_episode_rewards", 9%Q, 2) ].
Proof.
  etransitivity; [apply (episode_metrics demo_config demo_dir 4 [0; 2])|].
  - reflexivity.
  - reflexivity.
  - vm_compute. discriminate.
  - vm_compute. discriminate.
  - vm_compute. reflexivity.
Defined.

Lemma trigger_once_per_boundary_witness :
  Z.of_nat (count is_prep_training (run scenario_config demo_dir).1)
  = 50 * 12 / 100.
Proof.
  apply (trigger_once_per_boundary scenario_config demo_dir 4 [0; 12]).
  - reflexivity.
  - reflexivity.
  - cbn. lia.
  - cbn. lia.
  - cbn. lia.
Defined.

Lemma trigger_times_scenario_witness :
  In 108 (fire_times 12 0 (run scenario_config demo_dir).1)
  <-> (exists i, 1 <= i <= 50 /\ 108 = 12 * i)
      /\ (exists n, 1 <= n /\ 100 * n <= 108 /\ 108 - 12 < 100 * n).
Proof.
  apply (trigger_times_scenario scenario_config demo_dir 4 [0; 12]).
  - reflexivity.
  - reflexivity.
  - reflexivity.
  - reflexivity.
  - reflexivity.
  - vm_compute. discriminate.
Defined.

(** The bursts of the scenario run, by evaluation. *)
Example scenario_fire_times :
  fire_times 12 0 (run scenario_config demo_dir).1
  = [108; 204; 300; 408; 504; 600].
Proof. vm_compute. reflexivity. Qed.

(** C3 (as stated) fails for a stride above the period: with W = 12 and
    steps_per_update = 5 the single step of the run crosses the boundaries
    5 and 10 and starts one burst. *)
Lemma trigger_boundary_counterexample :
  let tr := (run wide_stride_config demo_dir).1 in
  count is_env_step tr = 1%nat
  /\ fire_times 12 0 tr = [12]
  /\ Z.of_nat (count is_prep_training tr) = 1
  /\ Z.of_nat (count is_env_step tr) * 12 / 5 = 2
  /\ Z.of_nat (count is_prep_training tr)
     <> Z.of_nat (count is_env_step tr) * 12 / 5.
Proof. vm_compute. repeat split; discriminate. Qed.

(** C4 (as stated) fails: the scenario run tests the trigger at t = 12,
    24, ..., 96 without firing, and never tests it at t = 0; the first
    burst starts at t = 108. *)
Lemma trigger_times_counterexample :
  let fired := fire_times 12 0 (run scenario_config demo_dir).1 in
  count is_env_step (run scenario_config demo_dir).1 = 50%nat
  /\ hd_error fired = Some 108
  /\ ~ In 0 fired /\ ~ In 12 fired /\ ~ In 96 fired.
Proof.
  vm_compute. repeat split; try reflexivity;
    intros H; repeat (destruct H as [H | H]; [discriminate H|]); exact H.
Qed.

(** C6 (as stated) fails on the suffix: the first episode of the demo run
    ends at step count 6 and its snapshot is model_ep1.pt (episode index
    0, plus one), not model_ep6.pt. *)
Lemma checkpoint_suffix_counterexample :
  let r := episode demo_config 4 2 0 (initial_state demo_config) in
  saves r.1
  = [ ["models"; "fullobs_collect_treasure"; "test"; "run4"; "incremental";
       "model_ep1.pt"];
      ["models"; "fullobs_collect_treasure"; "test"; "run4"; "model.pt"] ]
  /\ (exists s', r.2 = Ok (tt, s') /\ t s' = 6)
  /\ "model_ep1.pt" <> "model_ep" +:+ str 6 +:+ ".pt".
Proof.
  vm_compute. split; [reflexivity|]. split; [|discriminate].
  eexists. split; reflexivity.
Qed.

(** C7 (as stated) fails on the order: in the demo run the last snapshot
    is the event before the first close call. *)
Lemma shutdown_order_counterexample :
  let tr := (run demo_config demo_dir).1 in
  last_index is_save tr = Some 69%nat
  /\ first_index is_close tr = Some 70%nat
  /\ nth_error tr 69 = Some (EvSave (RUN_DIR demo_config 4 ++ ["model.pt"]))
  /\ nth_error tr 70 = Some EvEnvClose.
Proof. vm_compute. repeat split. Qed.

(** C9 (as stated) fails on the value: at the end of the first episode of
    the demo run the windowed means are 2 and 3, and the scalars reported
    are 6 and 9, the means times episode_length = 3. *)
Lemma episode_metric_counterexample :
  get_average_rewards (buffer_after demo_config 3) (3 * 2) = [2%Q; 3%Q]
  /\ firstn 2 (scalars (run demo_config demo_dir).1)
     = [ ("agent0/mean_episode_rewards", 6%Q, 0);
         ("agent1/mean_episode_rewards", 9%Q, 0) ]
  /\ 6%Q <> 2%Q.
Proof. vm_compute. repeat split; discriminate. Qed.

End Demo.

(** * Further properties of the driver *)

(** ** Run names are read back *)

Section RunNames.

Lemma rstrip_minus_digits (ds : string) :
  digits_only ds = true -> rstrip (String "-" ds) = String "-" ds.
Proof.
  intros Hd. cbn [rstrip]. rewrite (rstrip_digits _ Hd).
  destruct ds; reflexivity.
Qed.

(** [int(str(n))] is [n] for every integer. *)
Lemma int_str (z : Z) : int (str z) = Ok z.
Proof.
  destruct z as [|p|p].
  - reflexivity.
  - apply (int_of_str (Npos p)).
  - pose proof (DecimalPos.Unsigned.to_uint_nonnil p) as Hp.
    pose proof (digits_only_uint (Pos.to_uint p)) as Hd.
    assert (Hs : str (Zneg p)
                 = String "-" (NilEmpty.string_of_uint (Pos.to_uint p))).
    { unfold str. cbn [Z.to_int NilZero.string_of_int NilZero.string_of_uint].
      destruct (Pos.to_uint p); [contradiction | reflexivity ..]. }
    rewrite Hs. unfold int, strip.
    change (lstrip (String "-" ?s)) with (String "-" s).
    rewrite (rstrip_minus_digits _ Hd).
    rewrite parse_digits_uint by (left; exact Hp).
    rewrite uint_value_0.
    change (N.of_uint (Pos.to_uint p)) with (N.of_uint (N.to_uint (Npos p))).
    rewrite DecimalN.Unsigned.of_to. reflexivity.
Qed.

Lemma split_go_str (z : Z) : split_go "run" (str z) 0 = (str z, []).
Proof.
  destruct z as [|p|p].
  - reflexivity.
  - destruct (str_of_N (Npos p)) as [Hs _]. cbn [Z.of_N] in Hs. rewrite Hs.
    apply split_go_digits, digits_only_uint.
  - pose proof (DecimalPos.Unsigned.to_uint_nonnil p) as Hp.
    assert (Hs : str (Zneg p)
                 = String "-" (NilEmpty.string_of_uint (Pos.to_uint p))).
    { unfold str. cbn [Z.to_int NilZero.string_of_int NilZero.string_of_uint].
      destruct (Pos.to_uint p); [contradiction | reflexivity ..]. }
    rewrite Hs. cbn [split_go].
    rewrite prefix_run_ne by discriminate.
    rewrite split_go_digits by apply digits_only_uint. reflexivity.
Qed.

Lemma split_CURR_RUN (z : Z) :
  split (CURR_RUN z) "run" = [EmptyString; str z].
Proof.
  unfold split, CURR_RUN.
  change ("run" +:+ str z) with (String "r" (String "u" (String "n" (str z)))).
  cbn [split_go]. rewrite prefix_run.
  change (String.length "run" - 1)%nat with 2%nat. cbn [split_go].
  rewrite split_go_str. reflexivity.
Qed.

Lemma startswith_CURR_RUN (z : Z) : startswith (CURR_RUN z) "run" = true.
Proof. apply prefix_run. Qed.

(** X1: the directory name written by [f"run{run_num}"] (line 33) is read
    back to [run_num] by the parsing of line 30, for every integer. *)
Theorem run_name_round_trip (run_num : Z) :
  startswith (CURR_RUN run_num) "run" = true
  /\ rbind (index (split (CURR_RUN run_num) "run") 1) int = Ok run_num
  /\ exst_run_nums [CURR_RUN run_num] = Ok [run_num].
Proof.
  assert (H : rbind (index (split (CURR_RUN run_num) "run") 1) int = Ok run_num).
  { rewrite split_CURR_RUN. cbn [index lookup list_lookup rbind].
    apply int_str. }
  split; [apply startswith_CURR_RUN|]. split; [exact H|].
  unfold exst_run_nums.
  rewrite filter_cons_True by apply startswith_CURR_RUN.
  rewrite filter_nil. cbn [rmap]. rewrite H. reflexivity.
Qed.

End RunNames.

(** ** Run numbering: freshness, order, failure *)

Section RunNumberingMore.

Lemma rmap_app {X Y} (f : X -> result Y) (xs1 xs2 : list X) :
  rmap f (xs1 ++ xs2)
  = rbind (rmap f xs1) (fun ys1 =>
      rbind (rmap f xs2) (fun ys2 => Ok (ys1 ++ ys2))).
Proof.
  induction xs1 as [|x xs1 IH]; cbn [app rmap rbind].
  - destruct (rmap f xs2); reflexivity.
  - destruct (f x) as [y|e]; cbn [rbind]; [|reflexivity].
    rewrite IH. destruct (rmap f xs1) as [ys1|e]; cbn [rbind]; [|reflexivity].
    destruct (rmap f xs2); reflexivity.
Qed.

Lemma rmap_Ok_in {X Y} (f : X -> result Y) (xs : list X) (ys : list Y) (x : X) :
  rmap f xs = Ok ys -> In x xs -> exists y, In y ys /\ f x = Ok y.
Proof.
  revert ys. induction xs as [|x0 xs IH]; intros ys Hr Hx; [destruct Hx|].
  cbn [rmap] in Hr. destruct (f x0) as [y0|e] eqn:E0; [|discriminate].
  cbn [rbind] in Hr. destruct (rmap f xs) as [ys'|e]; [|discriminate].
  injection Hr as <-. destruct Hx as [<- | Hx].
  - exists y0. split; [left; reflexivity | exact E0].
  - destruct (IH ys' eq_refl Hx) as (y & Hy & Hf).
    exists y. split; [right; exact Hy | exact Hf].
Qed.

Lemma rmap_Raise_in {X Y} (f : X -> result Y) (xs : list X) (e : exn) :
  rmap f xs = Raise e -> exists x, In x xs /\ f x = Raise e.
Proof.
  induction xs as [|x0 xs IH]; intros Hr; [discriminate|].
  cbn [rmap] in Hr. destruct (f x0) as [y0|e0] eqn:E0.
  - cbn [rbind] in Hr. destruct (rmap f xs) as [ys'|e1]; [discriminate|].
    injection Hr as ->. destruct (IH eq_refl) as (x & Hx & Hf).
    exists x. split; [right; exact Hx | exact Hf].
  - injection Hr as ->. exists x0. split; [left; reflexivity | exact E0].
Qed.

Lemma max_list_spec (x : Z) (xs : list Z) :
  In (max_list x xs) (x :: xs)
  /\ forall y, In y (x :: xs) -> y <= max_list x xs.
Proof.
  unfold max_list. revert x. induction xs as [|a xs IH]; intros x.
  - cbn. split; [left; reflexivity|]. intros y [<- | []]. lia.
  - cbn [fold_left]. destruct (IH (Z.max x a)) as [Hin Hle]. split.
    + destruct Hin as [Heq | Hin].
      * rewrite <- Heq. destruct (Z.max_spec x a) as [[_ ->] | [_ ->]];
          [right; left; reflexivity | left; reflexivity].
      * right. right. exact Hin.
    + intros y [Hy | [Hy | Hy]].
      * specialize (Hle (Z.max x a) (or_introl eq_refl)). lia.
      * specialize (Hle (Z.max x a) (or_introl eq_refl)). lia.
      * apply Hle. right. exact Hy.
Qed.

Lemma run_num_after_gt (nums : list Z) (y : Z) :
  In y nums -> y < run_num_after nums.
Proof.
  destruct nums as [|n ns]; [intros []|]. intros Hy. cbn [run_num_after].
  destruct (max_list_spec n ns) as [_ Hle]. specialize (Hle y Hy). lia.
Qed.

Lemma run_num_after_insert (a b : list Z) :
  run_num_after (a ++ run_num_after (a ++ b) :: b) = run_num_after (a ++ b) + 1.
Proof.
  set (n := run_num_after (a ++ b)).
  assert (Hlt : forall y, In y (a ++ b) -> y < n)
    by (intros y; apply run_num_after_gt).
  destruct (a ++ n :: b) as [|m ms] eqn:E; [destruct a; discriminate E|].
  cbn [run_num_after]. f_equal.
  destruct (max_list_spec m ms) as [Hin Hle]. rewrite <- E in Hin, Hle.
  assert (Hn : n <= max_list m ms).
  { apply Hle. apply in_or_app. right. left. reflexivity. }
  apply in_app_or in Hin. destruct Hin as [Hin | [Heq | Hin]].
  - specialize (Hlt _ (in_or_app _ _ _ (or_introl Hin))). lia.
  - symmetry. exact Heq.
  - specialize (Hlt _ (in_or_app _ _ _ (or_intror Hin))). lia.
Qed.

Lemma exst_run_nums_parse (names : list string) :
  exst_run_nums names
  = rmap parse_run_name (filter (fun name => startswith name "run" = true) names).
Proof. reflexivity. Qed.

Lemma next_run_num_existing (entries : list string) :
  next_run_num {| dir_exists := true; dir_entries := entries |}
  = rbind (exst_run_nums entries) (fun nums => Ok (run_num_after nums)).
Proof.
  unfold next_run_num. cbn [dir_exists dir_entries].
  destruct (exst_run_nums entries) as [[|n ns]|e]; reflexivity.
Qed.

Lemma exst_run_nums_app (l1 l2 : list string) :
  exst_run_nums (l1 ++ l2)
  = rbind (exst_run_nums l1) (fun a =>
      rbind (exst_run_nums l2) (fun b => Ok (a ++ b))).
Proof. rewrite !exst_run_nums_parse, filter_app. apply rmap_app. Qed.

Lemma prefix_run_inv (name : string) :
  startswith name "run" = true ->
  exists rest, name = String "r" (String "u" (String "n" rest)).
Proof.
  unfold startswith.
  destruct name as [|a [|b [|c rest]]]; cbn -[ascii_dec]; try discriminate.
  - destruct (ascii_dec "r" a); discriminate.
  - destruct (ascii_dec "r" a); [|discriminate].
    destruct (ascii_dec "u" b); discriminate.
  - destruct (ascii_dec "r" a) as [<-|]; [|discriminate].
    destruct (ascii_dec "u" b) as [<-|]; [|discriminate].
    destruct (ascii_dec "n" c) as [<-|]; [|discriminate].
    intros _. exists rest. reflexivity.
Qed.

Lemma int_raises (s : string) (e : exn) : int s = Raise e -> e = ValueError.
Proof.
  unfold int.
  match goal with
  | |- context [match ?b with (_, _) => _ end] => destruct b as [neg ds]
  end.
  destruct (parse_digits ds AtStart 0); [discriminate|].
  intros [= <-]. reflexivity.
Qed.

(** An entry that passes the filter of line 31 always has a piece at
    index 1; only [int] can fail on it. *)
Lemma parse_run_name_raises (name : string) (e : exn) :
  startswith name "run" = true -> parse_run_name name = Raise e ->
  e = ValueError.
Proof.
  intros Hp. destruct (prefix_run_inv _ Hp) as [rest ->].
  unfold parse_run_name, split. cbn [split_go]. rewrite prefix_run.
  change (String.length "run" - 1)%nat with 2%nat. cbn [split_go].
  destruct (split_go "run" rest 0) as [h tl].
  cbn [index lookup list_lookup rbind]. apply int_raises.
Qed.

(** X2: the run directory chosen at startup is new: when the model
    directory exists and run numbering succeeds with index n, no entry of
    the directory is named run<n>, so [os.makedirs(LOG_DIR)] never meets an
    existing run. *)
Theorem run_dir_is_fresh (d : model_dir) (n : Z) :
  dir_exists d = true -> next_run_num d = Ok n ->
  ~ In (CURR_RUN n) (dir_entries d).
Proof.
  destruct d as [ex entries]. cbn [dir_exists dir_entries]. intros -> Hn Hin.
  rewrite next_run_num_existing in Hn.
  destruct (exst_run_nums entries) as [nums|e] eqn:E; [|discriminate].
  cbn [rbind] in Hn. injection Hn as <-.
  rewrite exst_run_nums_parse in E.
  assert (Hf : In (CURR_RUN (run_num_after nums))
                  (filter (fun name => startswith name "run" = true) entries)).
  { apply list_elem_of_In, list_elem_of_filter.
    split; [apply startswith_CURR_RUN | apply list_elem_of_In; exact Hin]. }
  destruct (rmap_Ok_in _ _ _ _ E Hf) as (y & Hy & Hparse).
  destruct (run_name_round_trip (run_num_after nums)) as (_ & Hrt & _).
  unfold parse_run_name in Hparse. rewrite Hrt in Hparse.
  injection Hparse as <-.
  pose proof (run_num_after_gt _ _ Hy). lia.
Qed.

(** X3: the new run index is greater than the index parsed from every
    existing entry whose name starts with "run". *)
Theorem run_index_exceeds_existing (d : model_dir) (n : Z) (name : string) :
  dir_exists d = true -> next_run_num d = Ok n ->
  In name (dir_entries d) -> startswith name "run" = true ->
  exists m, parse_run_name name = Ok m /\ m < n.
Proof.
  destruct d as [ex entries]. cbn [dir_exists dir_entries].
  intros -> Hn Hin Hp. rewrite next_run_num_existing in Hn.
  destruct (exst_run_nums entries) as [nums|e] eqn:E; [|discriminate].
  cbn [rbind] in Hn. injection Hn as <-.
  rewrite exst_run_nums_parse in E.
  assert (Hf : In name (filter (fun name => startswith name "run" = true) entries)).
  { apply list_elem_of_In, list_elem_of_filter.
    split; [exact Hp | apply list_elem_of_In; exact Hin]. }
  destruct (rmap_Ok_in _ _ _ _ E Hf) as (m & Hm & Hparse).
  exists m. split; [exact Hparse | apply run_num_after_gt; exact Hm].
Qed.

(** X4: run indices are consecutive across invocations: once the run
    directory run<n> of an invocation has been added to the entries it saw
    (anywhere in the listing), the next invocation gets n + 1. *)
Theorem consecutive_runs (d : model_dir) (n : Z) (l1 l2 : list string) :
  next_run_num d = Ok n ->
  (if dir_exists d then dir_entries d else []) = l1 ++ l2 ->
  next_run_num {| dir_exists := true; dir_entries := l1 ++ CURR_RUN n :: l2 |}
  = Ok (n + 1).
Proof.
  intros Hn Hsplit.
  assert (Hn' : next_run_num {| dir_exists := true; dir_entries := l1 ++ l2 |}
                = Ok n).
  { destruct d as [[|] entries]; cbn [dir_exists dir_entries] in Hsplit.
    - rewrite <- Hsplit. exact Hn.
    - rewrite <- Hsplit. exact Hn. }
  clear Hn Hsplit. rewrite next_run_num_existing in *.
  rewrite exst_run_nums_app in Hn'.
  change (l1 ++ CURR_RUN n :: l2) with (l1 ++ [CURR_RUN n] ++ l2).
  rewrite !exst_run_nums_app.
  destruct (exst_run_nums l1) as [a|e]; [|discriminate].
  destruct (exst_run_nums l2) as [b|e]; [|discriminate].
  cbn [rbind] in Hn'. injection Hn' as <-.
  destruct (run_name_round_trip (run_num_after (a ++ b))) as (_ & _ & ->).
  cbn [rbind app]. f_equal. apply run_num_after_insert.
Qed.

(** X5: an entry of ASCII characters whose name starts with "run" but
    does not continue with an integer (a stray run_old, runs, ...) aborts
    the run in the list comprehension of line 30 with [ValueError], before
    anything is created: the trace is empty. *)
Theorem stray_run_entry_aborts `{Collaborators} (cfg : config) (d : model_dir)
    (name : string) :
  dir_exists d = true ->
  In name (dir_entries d) ->
  ascii_only name = true ->
  startswith name "run" = true ->
  (forall z, parse_run_name name <> Ok z) ->
  run cfg d = ([], Raise ValueError).
Proof.
  destruct d as [ex entries]. cbn [dir_exists dir_entries].
  intros -> Hin _ Hp Hbad.
  assert (Hn : next_run_num {| dir_exists := true; dir_entries := entries |}
               = Raise ValueError).
  { rewrite next_run_num_existing, exst_run_nums_parse.
    assert (Hf : In name (filter (fun name => startswith name "run" = true) entries)).
    { apply list_elem_of_In, list_elem_of_filter.
      split; [exact Hp | apply list_elem_of_In; exact Hin]. }
    destruct (rmap parse_run_name _) as [nums|e] eqn:E.
    - destruct (rmap_Ok_in _ _ _ _ E Hf) as (m & _ & Hm).
      destruct (Hbad m Hm).
    - destruct (rmap_Raise_in _ _ _ E) as (x & Hx & Hfx).
      apply list_elem_of_In, list_elem_of_filter in Hx as [Hxp _].
      rewrite (parse_run_name_raises _ _ Hxp Hfx). reflexivity. }
  unfold run. rewrite Hn. reflexivity.
Qed.

End RunNumberingMore.

(** ** Zero stride and zero periods *)

Section FailureModes.
Context {env : Collaborators}.
Variable cfg : config.

Lemma bind_raise {X Y} (m : M X) (f : X -> M Y) s tr e :
  m s = (tr, Raise e) -> bind m f s = (tr, Raise e).
Proof. intros Hm. unfold bind. rewrite Hm. reflexivity. Qed.

(** X6: with n_rollout_threads = 0 the run builds its directories, the
    environment, the learner and the buffer and then raises [ValueError]
    at [range(0, n_episodes, 0)]: no episode runs, no snapshot is written
    and nothing is closed. *)
Theorem zero_threads_raises (d : model_dir) (run_num : Z) :
  next_run_num d = Ok run_num ->
  n_rollout_threads cfg = 0 ->
  run cfg d = (startup cfg run_num, Raise ValueError)
  /\ saves (startup cfg run_num) = []
  /\ count is_close (startup cfg run_num) = 0%nat.
Proof.
  intros Hd HW. split; [|split; reflexivity].
  unfold run. rewrite Hd. unfold training, bind, lift, range3.
  rewrite HW. cbn [Z.eqb]. rewrite app_nil_r. reflexivity.
Qed.

(** X7: with steps_per_update = 0 no step ever starts a burst: a rollout
    step makes its three calls and then raises [ZeroDivisionError] when the
    buffer holds at least batch_size entries, and otherwise ends normally
    (the remainder is not evaluated). *)
Theorem zero_steps_per_update (s : state) :
  steps_per_update cfg = 0 ->
  rollout_step cfg (Z.to_nat (worker_count cfg)) s
  = ([EvModelStep (steps_done s); EvEnvStep (actions_at cfg (steps_done s));
      EvPush (steps_done s)],
     if batch_size cfg <=? Z.of_nat (len (replay_buffer (stepped cfg s)))
     then Raise ZeroDivisionError
     else Ok (tt, stepped cfg s)).
Proof.
  intros HS. unfold rollout_step.
  unfold bind at 1. unfold get at 1.
  unfold bind at 1. unfold emit at 1.
  unfold bind at 1. rewrite per_env_actions_ok. unfold lift at 1.
  unfold bind at 1. unfold emit at 1.
  unfold bind at 1. unfold emit at 1.
  unfold bind at 1. unfold put at 1.
  unfold bind at 1. unfold update_due, mod_. rewrite HS. cbn [Z.eqb rbind].
  unfold stepped. cbn [replay_buffer].
  destruct (batch_size cfg <=? _); reflexivity.
Qed.

Lemma checkpoint_zero_interval (run_num ep_i : Z) (s : state) :
  save_interval cfg = 0 ->
  checkpoint cfg run_num ep_i s = ([], Raise ZeroDivisionError).
Proof.
  intros HI. unfold checkpoint, bind, lift, mod_. rewrite HI. reflexivity.
Qed.

Lemma count_nil_forall (p : event -> bool) (tr : list event) :
  Forall (fun e => p e = false) tr -> count p tr = 0%nat.
Proof.
  unfold count. induction 1 as [|e tr He _ IH]; [reflexivity|].
  cbn [List.filter]. rewrite He. exact IH.
Qed.

Lemma count_steps_env (ks : list nat) :
  count is_env_step (flat_map (step_trace cfg) ks) = length ks.
Proof.
  rewrite (count_flat_map _ _ 1).
  - lia.
  - intros k. apply (fire_times_step cfg 0 k).
Qed.

(** X8: with save_interval = 0 (and a run that reaches the end of its
    first episode) the run raises [ZeroDivisionError] at the checkpoint
    test of that episode: the episode was simulated in full, but no
    snapshot at all was written and nothing was closed. *)
Theorem zero_save_interval_loses_run (d : model_dir) (run_num ep_i : Z)
    (eps : list Z) :
  next_run_num d = Ok run_num ->
  range3 0 (n_episodes cfg) (n_rollout_threads cfg) = Ok (ep_i :: eps) ->
  steps_per_update cfg <> 0 ->
  save_interval cfg = 0 ->
  exists tr,
    run cfg d = (tr, Raise ZeroDivisionError)
    /\ saves tr = []
    /\ count is_close tr = 0%nat
    /\ count is_env_step tr = Z.to_nat (episode_length cfg).
Proof.
  intros Hd Heps HS HI.
  set (L := Z.to_nat (episode_length cfg)).
  set (head := [EvPrint (episode_banner cfg ep_i); EvEnvReset; EvPrepRollouts]
               ++ flat_map (step_trace cfg) (seq 0 L)
               ++ log_trace cfg (buffer_after cfg L) ep_i).
  assert (Hep : episode cfg run_num (Z.to_nat (worker_count cfg)) ep_i
                  (initial_state cfg)
                = (head, Raise ZeroDivisionError)).
  { unfold episode, head.
    erewrite bind_ok; [| reflexivity |].
    2:{ erewrite bind_ok; [reflexivity | reflexivity |].
        erewrite bind_ok; [reflexivity | reflexivity |].
        erewrite bind_ok; [reflexivity | |].
        { apply (for_closed _ (fun i _ => step_trace cfg i) (state_after cfg) _ 0).
          intros i x _. apply rollout_step_closed. exact HS. }
        erewrite bind_ok; [reflexivity | apply log_rewards_closed |].
        apply checkpoint_zero_interval. exact HI. }
    rewrite length_range. fold L.
    rewrite (concat_imap_seq cfg (step_trace cfg) _ 0), length_range. fold L.
    cbn [app]. rewrite app_nil_r. reflexivity. }
  exists (startup cfg run_num ++ head).
  split; [|split; [|split]].
  - unfold run. rewrite Hd. unfold training.
    unfold bind at 1. rewrite Heps. unfold lift.
    erewrite bind_raise; [reflexivity|].
    cbn [for_]. apply bind_raise. exact Hep.
  - unfold saves, head. rewrite !omap_app.
    rewrite omap_steps by (intros []; simpl; congruence).
    rewrite (omap_none _ (log_trace _ _ _))
      by (apply Forall_imap; reflexivity).
    reflexivity.
  - apply count_nil_forall. apply Forall_app. split; [repeat constructor|].
    unfold head. repeat (apply Forall_app; split).
    + repeat constructor.
    + apply Forall_flat_map. intros k.
      eapply Forall_impl; [apply step_trace_in_rollout|].
      intros []; simpl; congruence.
    + apply Forall_imap. reflexivity.
  - unfold head. rewrite !count_app, count_steps_env, length_seq.
    rewrite (count_nil_forall _ (log_trace _ _ _))
      by (apply Forall_imap; reflexivity).
    change (count is_env_step (startup cfg run_num)) with 0%nat.
    change (count is_env_step [EvPrint (episode_banner cfg ep_i); EvEnvReset;
                               EvPrepRollouts]) with 0%nat.
    lia.
Qed.

End FailureModes.

(** ** The action re-layout and the worker seeds *)

Section Relayout.
Context {env : Collaborators}.
Variable cfg : config.

Lemma rmap_Ok_lookup {X Y} (f : X -> result Y) (xs : list X) (ys : list Y) :
  rmap f xs = Ok ys ->
  length ys = length xs
  /\ forall i x, xs !! i = Some x -> exists y, ys !! i = Some y /\ f x = Ok y.
Proof.
  revert ys. induction xs as [|x0 xs IH]; intros ys Hr.
  - injection Hr as <-. split; [reflexivity|]. intros i x Hx. discriminate Hx.
  - cbn [rmap] in Hr. destruct (f x0) as [y0|e] eqn:E0; [|discriminate].
    cbn [rbind] in Hr. destruct (rmap f xs) as [ys'|e]; [|discriminate].
    injection Hr as <-. destruct (IH ys' eq_refl) as [Hlen Hlook].
    split; [cbn; f_equal; exact Hlen|].
    intros [|i] x Hx.
    + injection Hx as <-. exists y0. split; [reflexivity | exact E0].
    + apply (Hlook i x Hx).
Qed.

Lemma lookup_range (n : Z) (i : nat) :
  (i < Z.to_nat n)%nat -> range n !! i = Some (Z.of_nat i).
Proof.
  intros Hi. unfold range.
  change (map Z.of_nat ?l) with (Z.of_nat <$> l).
  rewrite list_lookup_fmap, lookup_seq_lt by exact Hi. reflexivity.
Qed.

(** X9: whatever the learner returns, when the re-layout of lines 84-85
    succeeds it is a transposition: there is one action row per rollout
    thread, each row has one entry per agent, and the entry of row i for
    agent a is the learner's action of agent a for environment i. *)
Theorem actions_transposed (acs acts : list (list Action)) :
  per_env_actions cfg acs = Ok acts ->
  length acts = Z.to_nat (n_rollout_threads cfg)
  /\ forall i a ac,
       (i < Z.to_nat (n_rollout_threads cfg))%nat -> acs !! a = Some ac ->
       exists row x,
         acts !! i = Some row /\ length row = length acs
         /\ row !! a = Some x /\ ac !! i = Some x.
Proof.
  unfold per_env_actions. intros Hr.
  destruct (rmap_Ok_lookup _ _ _ Hr) as [Hlen Hrows].
  split; [rewrite Hlen; apply length_range|].
  intros i a ac Hi Hac.
  destruct (Hrows i _ (lookup_range _ _ Hi)) as (row & Hrow & Hinner).
  destruct (rmap_Ok_lookup _ _ _ Hinner) as [Hlen' Hcells].
  destruct (Hcells a ac Hac) as (x & Hx & Hidx).
  exists row, x. repeat split; [exact Hrow | exact Hlen' | exact Hx |].
  unfold index in Hidx. rewrite Nat2Z.id in Hidx.
  destruct (ac !! i); [injection Hidx as ->; reflexivity | discriminate].
Qed.

(** X10: the re-layout raises exactly when some agent's action array has
    fewer rows than n_rollout_threads, and then it raises [IndexError]. *)
Theorem relayout_index_error (acs : list (list Action)) :
  (per_env_actions cfg acs = Raise IndexError
   <-> exists ac, In ac acs
                  /\ (length ac < Z.to_nat (n_rollout_threads cfg))%nat)
  /\ forall e, per_env_actions cfg acs = Raise e -> e = IndexError.
Proof.
  assert (Hraise : forall e, per_env_actions cfg acs = Raise e ->
            e = IndexError
            /\ exists ac, In ac acs
                 /\ (length ac < Z.to_nat (n_rollout_threads cfg))%nat).
  { unfold per_env_actions. intros e Hr.
    destruct (rmap_Raise_in _ _ _ Hr) as (i & Hi & Hinner).
    destruct (rmap_Raise_in _ _ _ Hinner) as (ac & Hac & Hidx).
    apply (in_range cfg) in Hi. unfold index in Hidx.
    destruct (ac !! Z.to_nat i) eqn:E; [discriminate|].
    injection Hidx as <-. split; [reflexivity|].
    exists ac. split; [exact Hac|].
    apply lookup_ge_None in E. lia. }
  split; [split|].
  - intros Hr. apply (Hraise _ Hr).
  - intros (ac & Hac & Hshort).
    destruct (per_env_actions cfg acs) as [acts|e] eqn:E.
    + exfalso. unfold per_env_actions in E.
      assert (Hi : In (Z.of_nat (length ac)) (range (n_rollout_threads cfg)))
        by (apply (in_range cfg); lia).
      destruct (rmap_Ok_in _ _ _ _ E Hi) as (row & _ & Hinner).
      destruct (rmap_Ok_in _ _ _ _ Hinner Hac) as (x & _ & Hidx).
      unfold index in Hidx. rewrite Nat2Z.id in Hidx.
      rewrite (proj2 (lookup_ge_None ac (length ac)) (Nat.le_refl _)) in Hidx.
      discriminate.
    + f_equal. apply (Hraise _ eq_refl).
  - intros e Hr. apply (Hraise _ Hr).
Qed.

(** X11: [make_parallel_env] builds one environment per rank below its
    worker count, rank r seeded with seed + 1000 * r; no two workers of a
    run share a seed. *)
Theorem worker_seeds_distinct (id : string) (n seed : Z) :
  exists seeds,
    make_parallel_env id n seed = EvSubprocVecEnv id seeds
    /\ length seeds = Z.to_nat n
    /\ (forall r, (r < Z.to_nat n)%nat ->
                  seeds !! r = Some (seed + Z.of_nat r * 1000))
    /\ NoDup seeds.
Proof.
  eexists. split; [reflexivity|].
  split; [rewrite length_map; apply length_range|]. split.
  - intros r Hr.
    change (map ?f ?l) with (f <$> l).
    rewrite list_lookup_fmap, (lookup_range _ _ Hr). reflexivity.
  - unfold range. rewrite map_map.
    change (map ?f ?l) with (f <$> l).
    apply NoDup_fmap_2; [|apply NoDup_seq].
    intros a b Hab. lia.
Qed.

End Relayout.

(** ** How much is simulated *)

Section Counting.
Context {env : Collaborators}.
Variable cfg : config.

Lemma count_concat_imap {X} (p : event -> bool) (g : nat -> X -> list event)
    (n : nat) (l : list X) :
  (forall i x, count p (g i x) = n) ->
  count p (concat (imap g l)) = (length l * n)%nat.
Proof.
  revert g. induction l as [|x l IH]; intros g Hg; [reflexivity|].
  cbn [imap concat length]. rewrite count_app, Hg.
  rewrite (IH (g ∘ S)) by (intros i y; apply Hg). lia.
Qed.

Lemma burst_trace_learner (k : nat) :
  Forall (fun e => is_learner_call e = true) (burst_trace cfg k).
Proof.
  unfold burst_trace. constructor; [reflexivity|].
  apply Forall_app. split; [| repeat constructor].
  apply Forall_flat_map. intros rep. repeat constructor.
Qed.

(** A count of simulation events sees, in one pass of the episode loop,
    the reset and the three calls of each step. *)
Lemma count_episode (p : event -> bool) (c : nat) (run_num : Z) (j : nat)
    (ep_i : Z) :
  (forall e, is_simulation e = false -> p e = false) ->
  (forall k, count p [EvModelStep k; EvEnvStep (actions_at cfg k); EvPush k] = c) ->
  count p (episode_trace cfg run_num j ep_i)
  = (count p [EvEnvReset] + Z.to_nat (episode_length cfg) * c)%nat.
Proof.
  intros Hq Hc. unfold episode_trace. rewrite !count_app.
  rewrite (count_flat_map _ _ c).
  2:{ intros k. unfold step_trace. rewrite count_app, Hc.
      rewrite (count_nil_forall p (if fires cfg k then _ else _)); [lia|].
      destruct (fires cfg k); [|constructor].
      eapply Forall_impl; [apply burst_trace_learner|].
      intros e He. apply Hq. destruct e; try discriminate He; reflexivity. }
  rewrite length_seq.
  rewrite (count_nil_forall p (log_trace _ _ _))
    by (apply Forall_imap; intros; apply Hq; reflexivity).
  rewrite (count_nil_forall p (checkpoint_trace _ _ _)).
  2:{ unfold checkpoint_trace. destruct (saves_at _ _); repeat constructor;
        apply Hq; reflexivity. }
  change [EvPrint (episode_banner cfg ep_i); EvEnvReset; EvPrepRollouts]
    with ([EvPrint (episode_banner cfg ep_i)] ++ [EvEnvReset] ++ [EvPrepRollouts]).
  rewrite !count_app.
  rewrite (count_nil_forall p [EvPrint _])
    by (repeat constructor; apply Hq; reflexivity).
  rewrite (count_nil_forall p [EvPrepRollouts])
    by (repeat constructor; apply Hq; reflexivity).
  lia.
Qed.

Lemma count_run_trace (p : event -> bool) (c : nat) (run_num : Z) :
  (forall e, is_simulation e = false -> p e = false) ->
  (forall k, count p [EvModelStep k; EvEnvStep (actions_at cfg k); EvPush k] = c) ->
  count p (run_trace cfg run_num)
  = (length (episodes cfg)
     * (count p [EvEnvReset] + Z.to_nat (episode_length cfg) * c))%nat.
Proof.
  intros Hq Hc. unfold run_trace, training_trace. rewrite !count_app.
  rewrite (count_concat_imap _ _ _ _ (fun j ep_i => count_episode p c run_num j ep_i Hq Hc)).
  rewrite (count_nil_forall p (startup _ _))
    by (repeat constructor; apply Hq; reflexivity).
  rewrite (count_nil_forall p (shutdown_trace _ _))
    by (repeat constructor; apply Hq; reflexivity).
  lia.
Qed.

Lemma length_episodes :
  0 < n_rollout_threads cfg -> 0 <= n_episodes cfg ->
  n_episodes cfg <= Z.of_nat (length (episodes cfg)) * n_rollout_threads cfg
                 < n_episodes cfg + n_rollout_threads cfg.
Proof.
  intros HW Hn. unfold episodes. rewrite length_map, length_seq.
  unfold range_len. replace (0 <? n_rollout_threads cfg) with true
    by (symmetry; apply Z.ltb_lt; exact HW).
  destruct (0 <? n_episodes cfg) eqn:E.
  - apply Z.ltb_lt in E.
    pose proof (Z.div_mod (n_episodes cfg - 0 - 1) (n_rollout_threads cfg)
                  ltac:(lia)) as Hdm.
    pose proof (Z.mod_pos_bound (n_episodes cfg - 0 - 1) (n_rollout_threads cfg) HW).
    pose proof (Z.div_pos (n_episodes cfg - 0 - 1) (n_rollout_threads cfg)
                  ltac:(lia) HW).
    rewrite Z2Nat.id by lia. nia.
  - apply Z.ltb_ge in E. cbn. lia.
Qed.

(** X12: a run that raises nothing makes ceil(n_episodes / W) passes of
    the episode loop, so W times the number of resets is the least
    multiple of W at or above n_episodes; every pass makes episode_length
    steps, and each step is one model step, one environment step and one
    push. *)
Theorem episodes_rounded_up (d : model_dir) (run_num : Z) :
  next_run_num d = Ok run_num ->
  0 < n_rollout_threads cfg -> 0 <= n_episodes cfg ->
  steps_per_update cfg <> 0 -> save_interval cfg <> 0 ->
  let tr := (run cfg d).1 in
  n_episodes cfg <= Z.of_nat (count is_reset tr) * n_rollout_threads cfg
                 < n_episodes cfg + n_rollout_threads cfg
  /\ count is_env_step tr
     = (count is_reset tr * Z.to_nat (episode_length cfg))%nat
  /\ count is_model_step tr = count is_env_step tr
  /\ count is_push tr = count is_env_step tr.
Proof.
  intros Hd HW Hn HS HI. cbv zeta.
  rewrite (run_closed cfg d run_num Hd ltac:(lia) HS HI). cbn [fst].
  rewrite (count_run_trace is_reset 0 run_num)
    by (try reflexivity; intros []; cbn; congruence).
  rewrite (count_run_trace is_env_step 1 run_num)
    by (try reflexivity; intros []; cbn; congruence).
  rewrite (count_run_trace is_model_step 1 run_num)
    by (try reflexivity; intros []; cbn; congruence).
  rewrite (count_run_trace is_push 1 run_num)
    by (try reflexivity; intros []; cbn; congruence).
  change (count is_reset [EvEnvReset]) with 1%nat.
  change (count is_env_step [EvEnvReset]) with 0%nat.
  change (count is_model_step [EvEnvReset]) with 0%nat.
  change (count is_push [EvEnvReset]) with 0%nat.
  pose proof (length_episodes HW Hn).
  repeat split; lia.
Qed.

End Counting.

(** ** The learner's mode and the sampling calls *)

Section Discipline.
Context {env : Collaborators}.
Variable cfg : config.

(** A trace that is allowed from mode [m] and leaves the learner in [m']. *)
Let runs (m : mode) (tr : list event) (m' : mode) : Prop :=
  mode_ok m tr = true /\ mode_after m tr = m'.

Lemma runs_app m a m1 b m2 : runs m a m1 -> runs m1 b m2 -> runs m (a ++ b) m2.
Proof.
  unfold runs, mode_after. revert m.
  induction a as [|e a IH]; intros m [Hok Haft] Hb.
  - cbn in Haft. subst m1. exact Hb.
  - cbn [app mode_ok fold_left] in *.
    apply andb_true_iff in Hok as [He Hok].
    destruct (IH (mode_step m e) (conj Hok Haft) Hb) as [H1 H2].
    rewrite He, H1. split; [reflexivity | exact H2].
Qed.

Lemma runs_flat_map {X} m (g : X -> list event) (l : list X) :
  (forall x, runs m (g x) m) -> runs m (flat_map g l) m.
Proof.
  intros Hg. induction l as [|x l IH]; [split; reflexivity|].
  cbn [flat_map]. eapply runs_app; [apply Hg | exact IH].
Qed.

Lemma runs_burst m k : runs m (burst_trace cfg k) ModeRollout.
Proof.
  unfold burst_trace.
  change (EvPrepTraining :: ?l) with ([EvPrepTraining] ++ l).
  apply (runs_app _ _ ModeTraining); [split; reflexivity|].
  apply (runs_app _ _ ModeTraining); [|split; reflexivity].
  apply runs_flat_map. intros rep. split; reflexivity.
Qed.

Lemma runs_step k : runs ModeRollout (step_trace cfg k) ModeRollout.
Proof.
  unfold step_trace. apply (runs_app _ _ ModeRollout); [split; reflexivity|].
  destruct (fires cfg k); [apply runs_burst | split; reflexivity].
Qed.

Lemma runs_neutral m (tr : list event) :
  Forall (fun e => forall m', mode_allows m' e = true /\ mode_step m' e = m') tr ->
  runs m tr m.
Proof.
  induction 1 as [|e tr He _ IH]; [split; reflexivity|].
  unfold runs, mode_after in *. cbn [mode_ok fold_left].
  destruct (He m) as [-> ->]. exact IH.
Qed.

Lemma runs_log m buf ep_i : runs m (log_trace cfg buf ep_i) m.
Proof.
  apply runs_neutral. unfold log_trace. apply Forall_imap.
  intros i x m'. split; reflexivity.
Qed.

Lemma runs_checkpoint run_num ep_i :
  runs ModeRollout (checkpoint_trace cfg run_num ep_i) ModeRollout.
Proof.
  unfold checkpoint_trace. destruct (saves_at cfg ep_i); split; reflexivity.
Qed.

Lemma runs_episode m run_num j ep_i :
  runs m (episode_trace cfg run_num j ep_i) ModeRollout.
Proof.
  unfold episode_trace.
  apply (runs_app _ _ ModeRollout); [split; reflexivity|].
  apply (runs_app _ _ ModeRollout); [apply runs_flat_map; apply runs_step|].
  apply (runs_app _ _ ModeRollout); [apply runs_log | apply runs_checkpoint].
Qed.

Lemma runs_episodes m run_num (g : nat -> nat) (eps : list Z) :
  m <> ModeTraining ->
  exists m', runs m (concat (imap (fun i => episode_trace cfg run_num (g i)) eps)) m'
             /\ m' <> ModeTraining.
Proof.
  revert m g. induction eps as [|ep_i eps IH]; intros m g Hm.
  - exists m. split; [split; reflexivity | exact Hm].
  - destruct (IH ModeRollout (g ∘ S) ltac:(discriminate)) as (m' & Hr & Hm').
    exists m'. split; [|exact Hm'].
    cbn [imap concat]. eapply runs_app; [apply runs_episode | exact Hr].
Qed.

(** X13: in a run that raises nothing the learner is used in the mode the
    driver last set: every [model.step] comes after a [prep_rollouts] with
    no [prep_training] in between, every [sample], [update_critic],
    [update_policies] and [update_all_targets] comes after a
    [prep_training] with no [prep_rollouts] in between, and no snapshot is
    written in training mode. *)
Theorem learner_mode_discipline (d : model_dir) (run_num : Z) :
  next_run_num d = Ok run_num ->
  n_rollout_threads cfg <> 0 -> steps_per_update cfg <> 0 ->
  save_interval cfg <> 0 ->
  mode_ok ModeUnset (run cfg d).1 = true.
Proof.
  intros Hd HW HS HI. rewrite (run_closed cfg d run_num Hd HW HS HI). cbn [fst].
  destruct (runs_episodes ModeUnset run_num (fun i => i) (episodes cfg)
              ltac:(discriminate)) as (m' & Hr & Hm').
  assert (Hall : runs ModeUnset (run_trace cfg run_num) m').
  { unfold run_trace, training_trace.
    apply (runs_app _ _ ModeUnset); [split; reflexivity|].
    apply (runs_app _ _ m'); [exact Hr|].
    destruct m'; [split; reflexivity | split; reflexivity | contradiction]. }
  apply Hall.
Qed.

(** X14: every [sample] call of a run that raises nothing asks for
    batch_size entries and is made, in one of the num_updates repetitions
    of a burst, right after a push that left at least batch_size entries
    in the buffer, at a step count that passed the remainder test. *)
Theorem sample_only_when_ready (d : model_dir) (run_num : Z) (k : nat)
    (rep size : Z) :
  next_run_num d = Ok run_num ->
  n_rollout_threads cfg <> 0 -> steps_per_update cfg <> 0 ->
  save_interval cfg <> 0 ->
  In (EvSample k rep size) (run cfg d).1 ->
  size = batch_size cfg
  /\ 0 <= rep < num_updates cfg
  /\ batch_size cfg <= Z.of_nat (len (buffer_after cfg (S k)))
  /\ (Z.of_nat (S k) * n_rollout_threads cfg) mod steps_per_update cfg
     < n_rollout_threads cfg.
Proof.
  intros Hd HW HS HI. rewrite (run_closed cfg d run_num Hd HW HS HI). cbn [fst].
  assert (Hall : Forall (sample_ready cfg) (run_trace cfg run_num)).
  { unfold run_trace, training_trace.
    apply Forall_app. split; [repeat constructor|].
    apply Forall_app. split; [|repeat constructor].
    apply Forall_concat_imap. intros j ep_i. unfold episode_trace.
    repeat (apply Forall_app; split).
    - repeat constructor.
    - apply Forall_flat_map. intros k'. unfold step_trace.
      apply Forall_app. split; [repeat constructor|].
      destruct (fires cfg k') eqn:Hf; [|constructor].
      unfold fires in Hf. apply andb_true_iff in Hf as [Hlen Hmod].
      apply Z.leb_le in Hlen. apply Z.ltb_lt in Hmod.
      unfold burst_trace. constructor; [exact I|].
      apply Forall_app. split; [| repeat constructor].
      apply List.Forall_forall. intros e He.
      apply in_flat_map in He as (rep' & Hrep & He).
      apply (in_range cfg) in Hrep.
      destruct He as [<- | [<- | [<- | [<- | []]]]]; cbn; auto.
    - unfold log_trace. apply Forall_imap. intros; exact I.
    - unfold checkpoint_trace. destruct (saves_at _ _); repeat constructor. }
  intros Hin. apply (proj1 (List.Forall_forall _ _) Hall) in Hin. exact Hin.
Qed.

End Discipline.

(** ** Which snapshots a run writes *)

Section Snapshots.
Context {env : Collaborators}.
Variable cfg : config.

Lemma length_string_app (s1 s2 : string) :
  String.length (s1 +:+ s2) = (String.length s1 + String.length s2)%nat.
Proof.
  induction s1 as [|c s1 IH]; [reflexivity|].
  change (String c s1 +:+ s2) with (String c (s1 +:+ s2)).
  cbn [String.length]. rewrite IH. reflexivity.
Qed.

Lemma string_app_inv_tail (s1 s2 tl : string) :
  s1 +:+ tl = s2 +:+ tl -> s1 = s2.
Proof.
  revert s2. induction s1 as [|c s1 IH]; intros [|c2 s2] H.
  - reflexivity.
  - apply (f_equal String.length) in H.
    rewrite !length_string_app in H. cbn [String.length] in H. lia.
  - apply (f_equal String.length) in H.
    rewrite !length_string_app in H. cbn [String.length] in H. lia.
  - change (String c (s1 +:+ tl) = String c2 (s2 +:+ tl)) in H.
    injection H as -> H. f_equal. apply IH. exact H.
Qed.

Lemma str_inj (a b : Z) : str a = str b -> a = b.
Proof.
  intros H. pose proof (int_str a) as Ha. rewrite H, int_str in Ha.
  injection Ha as ->. reflexivity.
Qed.

Lemma incremental_path_inj (run_num a b : Z) :
  incremental_path cfg run_num a = incremental_path cfg run_num b -> a = b.
Proof.
  unfold incremental_path. intros H. apply app_inv_head in H.
  injection H as H. apply String.app_inj, string_app_inv_tail, str_inj in H.
  lia.
Qed.

Lemma incremental_not_model (run_num a : Z) :
  incremental_path cfg run_num a <> model_path cfg run_num.
Proof.
  unfold incremental_path, model_path. intros H. apply app_inv_head in H.
  discriminate H.
Qed.

Lemma saves_run (run_num : Z) :
  saves (run_trace cfg run_num)
  = flat_map (fun ep_i =>
                if saves_at cfg ep_i
                then [incremental_path cfg run_num ep_i; model_path cfg run_num]
                else [])
             (episodes cfg)
    ++ [model_path cfg run_num].
Proof.
  unfold run_trace, training_trace, saves. rewrite !omap_app.
  rewrite omap_concat_imap.
  rewrite (imap_ext _ (fun _ ep_i =>
     if saves_at cfg ep_i
     then [incremental_path cfg run_num ep_i; model_path cfg run_num] else [])).
  2:{ intros j ep_i _. apply saves_episode. }
  rewrite concat_imap_const. reflexivity.
Qed.

Lemma episodes_lookup (i : nat) (ep_i : Z) :
  episodes cfg !! i = Some ep_i -> ep_i = Z.of_nat i * n_rollout_threads cfg.
Proof.
  unfold episodes. change (map ?f ?l) with (f <$> l).
  rewrite list_lookup_fmap. intros H.
  destruct (seq 0 _ !! i) as [k|] eqn:E; [|discriminate].
  apply lookup_seq in E as [-> _]. injection H as <-. lia.
Qed.

Lemma episodes_in (ep_i : Z) :
  In ep_i (episodes cfg) -> exists i, ep_i = Z.of_nat i * n_rollout_threads cfg.
Proof.
  intros H. apply list_elem_of_In, list_elem_of_lookup in H as [i H].
  exists i. apply episodes_lookup. exact H.
Qed.

(** X15: every run that enters the episode loop writes a snapshot after
    its first episode: with W > 0 and n_episodes > 0 the first files
    written are run<N>/incremental/model_ep1.pt and run<N>/model.pt,
    whatever save_interval (not 0) is. *)
Theorem first_pass_checkpoints (d : model_dir) (run_num : Z) :
  next_run_num d = Ok run_num ->
  0 < n_rollout_threads cfg -> 0 < n_episodes cfg ->
  steps_per_update cfg <> 0 -> save_interval cfg <> 0 ->
  exists rest,
    saves (run cfg d).1
    = (RUN_DIR cfg run_num ++ ["incremental"; "model_ep1.pt"])
      :: (RUN_DIR cfg run_num ++ ["model.pt"]) :: rest.
Proof.
  intros Hd HW Hn HS HI.
  rewrite (run_closed cfg d run_num Hd ltac:(lia) HS HI). cbn [fst].
  rewrite saves_run. unfold episodes, range_len.
  replace (0 <? n_rollout_threads cfg) with true
    by (symmetry; apply Z.ltb_lt; exact HW).
  replace (0 <? n_episodes cfg) with true
    by (symmetry; apply Z.ltb_lt; exact Hn).
  pose proof (Z.div_pos (n_episodes cfg - 0 - 1) (n_rollout_threads cfg)
                ltac:(lia) HW) as Hq.
  destruct (Z.to_nat ((n_episodes cfg - 0 - 1) / n_rollout_threads cfg + 1))
    as [|n'] eqn:E; [lia|].
  cbn [seq map flat_map]. unfold saves_at at 1.
  change (0 + Z.of_nat 0 * n_rollout_threads cfg) with 0.
  rewrite Zmod_0_l.
  replace (0 <? n_rollout_threads cfg) with true
    by (symmetry; apply Z.ltb_lt; exact HW).
  eexists. reflexivity.
Qed.

(** X16: within a run no incremental snapshot overwrites another: two
    different passes of the episode loop write incremental files of
    different names. *)
Theorem incremental_snapshots_distinct (run_num : Z) (eps : list Z)
    (i j : nat) (a b : Z) :
  range3 0 (n_episodes cfg) (n_rollout_threads cfg) = Ok eps ->
  eps !! i = Some a -> eps !! j = Some b ->
  incremental_path cfg run_num a = incremental_path cfg run_num b ->
  i = j.
Proof.
  intros Heps Ha Hb Hpath. apply range3_inv in Heps as [HW ->].
  apply incremental_path_inj in Hpath.
  apply episodes_lookup in Ha, Hb. subst a b. nia.
Qed.

(** X17: when W divides save_interval (both positive), the checkpoint
    test ep_i mod save_interval < W is exact: the incremental snapshot of
    an episode index is written if and only if the index is a value of the
    episode loop and a multiple of save_interval. *)
Theorem checkpoint_cadence_aligned (d : model_dir) (run_num : Z) (eps : list Z)
    (e : Z) :
  next_run_num d = Ok run_num ->
  range3 0 (n_episodes cfg) (n_rollout_threads cfg) = Ok eps ->
  steps_per_update cfg <> 0 ->
  0 < n_rollout_threads cfg -> 0 < save_interval cfg ->
  (n_rollout_threads cfg | save_interval cfg) ->
  In (incremental_path cfg run_num e) (saves (run cfg d).1)
  <-> In e eps /\ e mod save_interval cfg = 0.
Proof.
  intros Hd Heps HS HW HI [m Hm]. apply range3_inv in Heps as [HW0 ->].
  rewrite (run_closed cfg d run_num Hd HW0 HS ltac:(lia)). cbn [fst].
  rewrite saves_run, in_app_iff, in_flat_map.
  assert (Hexact : forall x, In x (episodes cfg) ->
            (saves_at cfg x = true <-> x mod save_interval cfg = 0)).
  { intros x Hx. apply episodes_in in Hx as [k ->].
    unfold saves_at. rewrite Z.ltb_lt, Hm.
    assert (0 < m) by nia.
    rewrite Z.mul_mod_distr_r by lia.
    pose proof (Z.mod_pos_bound (Z.of_nat k) m ltac:(lia)) as Hr.
    set (r := Z.of_nat k mod m) in *. split; intros Hlt.
    - assert (r = 0) as -> by nia. reflexivity.
    - rewrite Hlt. exact HW. }
  split.
  - intros [(x & Hx & Hin) | [Hin | []]].
    + destruct (saves_at cfg x) eqn:Hs; [|destruct Hin].
      destruct Hin as [Hin | [Hin | []]].
      * apply incremental_path_inj in Hin. subst x.
        split; [exact Hx | apply (Hexact _ Hx); exact Hs].
      * symmetry in Hin. destruct (incremental_not_model _ _ Hin).
    + symmetry in Hin. destruct (incremental_not_model _ _ Hin).
  - intros [Hin Hmod]. left. exists e. split; [exact Hin|].
    rewrite (proj2 (Hexact _ Hin) Hmod). left. reflexivity.
Qed.

End Snapshots.

(** ** The episode loop and the step counter *)

Section Loop.
Context {env : Collaborators}.
Variable cfg : config.


(** X19: the step counter counts environment steps across workers: when
    the loops end without an exception, t is n_rollout_threads times the
    number of [env.step] calls, and the buffer has received one push per
    call. *)
Theorem step_counter_counts_env_steps (run_num : Z) :
  n_rollout_threads cfg <> 0 -> steps_per_update cfg <> 0 ->
  save_interval cfg <> 0 ->
  exists tr s,
    training cfg run_num (Z.to_nat (worker_count cfg)) (initial_state cfg)
    = (tr, Ok (tt, s))
    /\ t s = Z.of_nat (count is_env_step tr) * n_rollout_threads cfg
    /\ steps_done s = count is_env_step tr
    /\ replay_buffer s = buffer_after cfg (count is_push tr).
Proof.
  intros HW HS HI. do 2 eexists.
  split; [apply (training_closed cfg run_num HW HS HI)|].
  assert (Hc : forall p, (forall e, is_simulation e = false -> p e = false) ->
            count p (training_trace cfg run_num) = count p (run_trace cfg run_num)).
  { intros p Hq. unfold run_trace. rewrite count_app.
    rewrite (count_nil_forall p (startup _ _))
      by (repeat constructor; apply Hq; reflexivity).
    reflexivity. }
  rewrite !Hc by (intros []; cbn; congruence).
  rewrite (count_run_trace cfg is_env_step 1 run_num)
    by (try reflexivity; intros []; cbn; congruence).
  rewrite (count_run_trace cfg is_push 1 run_num)
    by (try reflexivity; intros []; cbn; congruence).
  change (count is_env_step [EvEnvReset]) with 0%nat.
  change (count is_push [EvEnvReset]) with 0%nat.
  replace (length (episodes cfg) * (0 + Z.to_nat (episode_length cfg) * 1))%nat
    with (total_steps cfg) by (unfold total_steps; lia).
  repeat split.
Qed.

End Loop.

(** ** The further properties on concrete runs *)

Section DemoMore.
#[local] Existing Instance demo_world.

Lemma run_dir_is_fresh_witness :
  next_run_num demo_dir = Ok 4 /\ ~ In (CURR_RUN 4) (dir_entries demo_dir).
Proof.
  split; [reflexivity|].
  apply (run_dir_is_fresh demo_dir 4); reflexivity.
Defined.

Lemma run_index_exceeds_existing_witness :
  exists m, parse_run_name "run3" = Ok m /\ m < 4.
Proof.
  apply (run_index_exceeds_existing demo_dir 4 "run3").
  - reflexivity.
  - reflexivity.
  - right. left. reflexivity.
  - reflexivity.
Defined.

Lemma consecutive_runs_witness :
  next_run_num {| dir_exists := true;
                  dir_entries := ["run1"; "run3"] ++ CURR_RUN 4 :: ["notes.txt"] |}
  = Ok (4 + 1).
Proof.
  apply (consecutive_runs demo_dir 4 ["run1"; "run3"] ["notes.txt"]);
    reflexivity.
Defined.

Lemma stray_run_entry_aborts_witness :
  run demo_config {| dir_exists := true; dir_entries := ["run1"; "run_old"] |}
  = ([], Raise ValueError).
Proof.
  apply (stray_run_entry_aborts demo_config
           {| dir_exists := true; dir_entries := ["run1"; "run_old"] |}
           "run_old").
  - reflexivity.
  - right. left. reflexivity.
  - reflexivity.
  - reflexivity.
  - intros z. vm_compute. discriminate.
Defined.

Lemma zero_threads_raises_witness :
  run (with_threads 0 demo_config) demo_dir
  = (startup (with_threads 0 demo_config) 4, Raise ValueError)
  /\ saves (startup (with_threads 0 demo_config) 4) = []
  /\ count is_close (startup (with_threads 0 demo_config) 4) = 0%nat.
Proof.
  apply (zero_threads_raises (with_threads 0 demo_config) demo_dir 4);
    reflexivity.
Defined.

Lemma zero_steps_per_update_witness :
  rollout_step (with_steps_per_update 0 demo_config)
    (Z.to_nat (worker_count (with_steps_per_update 0 demo_config)))
    (state_after (with_steps_per_update 0 demo_config) 1)
  = ([EvModelStep 1; EvEnvStep (actions_at demo_config 1); EvPush 1],
     Raise ZeroDivisionError).
Proof.
  etransitivity.
  - apply (zero_steps_per_update (with_steps_per_update 0 demo_config)
             (state_after (with_steps_per_update 0 demo_config) 1)).
    reflexivity.
  - reflexivity.
Defined.

Lemma zero_save_interval_loses_run_witness :
  exists tr,
    run (with_save_interval 0 demo_config) demo_dir
    = (tr, Raise ZeroDivisionError)
    /\ saves tr = []
    /\ count is_close tr = 0%nat
    /\ count is_env_step tr = 3%nat.
Proof.
  apply (zero_save_interval_loses_run (with_save_interval 0 demo_config)
           demo_dir 4 0 [2]).
  - reflexivity.
  - reflexivity.
  - vm_compute. discriminate.
  - reflexivity.
Defined.

Lemma actions_transposed_witness :
  length (actions_at demo_config 0) = Z.to_nat 2
  /\ forall i a ac,
       (i < Z.to_nat 2)%nat -> agent_actions 0 2 !! a = Some ac ->
       exists row x,
         actions_at demo_config 0 !! i = Some row
         /\ length row = length (agent_actions 0 2)
         /\ row !! a = Some x /\ ac !! i = Some x.
Proof.
  apply (actions_transposed demo_config (agent_actions 0 2)
           (actions_at demo_config 0)).
  reflexivity.
Defined.

Lemma episodes_rounded_up_witness :
  4 <= Z.of_nat (count is_reset (run demo_config demo_dir).1) * 2 < 4 + 2
  /\ count is_env_step (run demo_config demo_dir).1
     = (count is_reset (run demo_config demo_dir).1 * Z.to_nat 3)%nat
  /\ count is_model_step (run demo_config demo_dir).1
     = count is_env_step (run demo_config demo_dir).1
  /\ count is_push (run demo_config demo_dir).1
     = count is_env_step (run demo_config demo_dir).1.
Proof.
  apply (episodes_rounded_up demo_config demo_dir 4).
  - reflexivity.
  - cbn. lia.
  - cbn. lia.
  - cbn. lia.
  - cbn. lia.
Defined.

Lemma learner_mode_discipline_witness :
  mode_ok ModeUnset (run demo_config demo_dir).1 = true.
Proof.
  apply (learner_mode_discipline demo_config demo_dir 4).
  - reflexivity.
  - cbn. lia.
  - cbn. lia.
  - cbn. lia.
Defined.

Lemma sample_only_when_ready_witness :
  4 = batch_size demo_config
  /\ 0 <= 0 < num_updates demo_config
  /\ batch_size demo_config <= Z.of_nat (len (buffer_after demo_config 2))
  /\ (Z.of_nat 2 * n_rollout_threads demo_config) mod steps_per_update demo_config
     < n_rollout_threads demo_config.
Proof.
  apply (sample_only_when_ready demo_config demo_dir 4 1 0 4).
  - reflexivity.
  - cbn. lia.
  - cbn. lia.
  - cbn. lia.
  - apply (nth_error_In _ 17). reflexivity.
Defined.

Lemma first_pass_checkpoints_witness :
  exists rest,
    saves (run demo_config demo_dir).1
    = (RUN_DIR demo_config 4 ++ ["incremental"; "model_ep1.pt"])
      :: (RUN_DIR demo_config 4 ++ ["model.pt"]) :: rest.
Proof.
  apply (first_pass_checkpoints demo_config demo_dir 4).
  - reflexivity.
  - cbn. lia.
  - cbn. lia.
  - cbn. lia.
  - cbn. lia.
Defined.

Lemma incremental_snapshots_distinct_witness :
  [0; 2] !! 1%nat = Some 2 /\ 1%nat = 1%nat.
Proof.
  split; [reflexivity|].
  apply (incremental_snapshots_distinct demo_config 4 [0; 2] 1 1 2 2);
    reflexivity.
Defined.

Lemma checkpoint_cadence_aligned_witness :
  In (incremental_path demo_config 4 0) (saves (run demo_config demo_dir).1)
  <-> In 0 [0; 2] /\ 0 mod save_interval demo_config = 0.
Proof.
  apply (checkpoint_cadence_aligned demo_config demo_dir 4 [0; 2] 0).
  - reflexivity.
  - reflexivity.
  - cbn. lia.
  - cbn. lia.
  - cbn. lia.
  - exists 2. reflexivity.
Defined.


Lemma step_counter_counts_env_steps_witness :
  exists tr s,
    training demo_config 4 (Z.to_nat (worker_count demo_config))
      (initial_state demo_config)
    = (tr, Ok (tt, s))
    /\ t s = Z.of_nat (count is_env_step tr) * n_rollout_threads demo_config
    /\ steps_done s = count is_env_step tr
    /\ replay_buffer s = buffer_after demo_config (count is_push tr).
Proof.
  apply (step_counter_counts_env_steps demo_config 4).
  - cbn. lia.
  - cbn. lia.
  - cbn. lia.
Defined.

End DemoMore.

(** ** Workers, action batches and the step counter *)

Section WorkerCount.
Context {env : Collaborators}.
Variable cfg : config.




End WorkerCount.

Section DemoWorkers.
#[local] Existing Instance demo_world.



End DemoWorkers.
